(** * DP_GP_cluster: the driver script [bin/DP_GP_cluster.py]

    A shallow embedding of the command-line driver of DP_GP_cluster and
    proofs about its configuration checks, its derived run parameters, the
    order of its phases and the grouping of genes by selected cluster.

    The driver calls into the packages [DP_GP.core], [DP_GP.cluster_tools]
    and [DP_GP.plot], and into numpy and pandas.  Those calls are taken as
    the fields of an environment record: every statement below holds for
    all environments.  What the driver computes itself (argument checks,
    the burn-in lengths, the rescaling of the time vector, the criterion
    dispatch, the grouping loop, the refit loop, the order of calls) is
    written out. *)

From Stdlib Require Import ZArith QArith Qround Floats Ascii String Lia Lqa Sorted Permutation.
From stdpp Require Import base gmap list strings sorting.

#[local] Open Scope Z_scope.
#[local] Open Scope list_scope.

(** ** Numbers

    The script computes on Python ints (unbounded, [Z]) and on binary64
    floats.  The array expressions of the script are written once, over a
    small interface of arithmetic operations, and read at two instances:
    [float] (the kernel's binary64, what the script runs on) and [Q]
    (the same expressions in exact arithmetic). *)

Class Num (T : Type) : Type := {
  nzero : T;
  nadd : T -> T -> T;
  nsub : T -> T -> T;
  ndiv : T -> T -> T;
  nof_nat : nat -> T
}.

(** [f64_of_Z z]: the float of a Python int, the binary64 value nearest to
    [z] (ties to even); exact for [|z| <= 2^53]. *)
Definition f64_of_Z (z : Z) : float :=
  SF2Prim (binary_normalize prec emax z 0 false).

#[export] Instance Num_f64 : Num float := {|
  nzero := PrimFloat.zero;
  nadd := PrimFloat.add;
  nsub := PrimFloat.sub;
  ndiv := PrimFloat.div;
  nof_nat n := f64_of_Z (Z.of_nat n)
|}.


Section Arrays.
Context {T : Type} `{Num T}.

(** [np.diff(t)]: the differences of consecutive entries. *)
Fixpoint np_diff (t : list T) : list T :=
  match t with
  | a :: (b :: _) as rest => nsub b a :: np_diff rest
  | _ => []
  end.

(** numpy's pairwise summation, the inner loop of [np.add.reduce] on a
    contiguous array: fewer than eight entries are added from the left; up
    to 128 entries are added into eight accumulators, chunk of eight by
    chunk of eight, the accumulators are added as a tree and what is left
    of the array is added from the left; a longer array is cut at a
    multiple of eight near its middle and the two sums are added. *)
Fixpoint add_chunks (fuel : nat) (r l : list T) : list T * list T :=
  match fuel with
  | O => (r, l)
  | S fuel' =>
      if (8 <=? length l)%nat
      then add_chunks fuel' (zip_with nadd r (take 8 l)) (drop 8 l)
      else (r, l)
  end.

Definition block_sum (l : list T) : T :=
  let '(r, rest) := add_chunks (length l) (take 8 l) (drop 8 l) in
  match r with
  | [r0; r1; r2; r3; r4; r5; r6; r7] =>
      fold_left nadd rest
        (nadd (nadd (nadd r0 r1) (nadd r2 r3)) (nadd (nadd r4 r5) (nadd r6 r7)))
  | _ => nzero
  end.

Fixpoint pairwise_sum (fuel : nat) (l : list T) : T :=
  if (length l <? 8)%nat then fold_left nadd l nzero
  else if (length l <=? 128)%nat then block_sum l
  else match fuel with
       | O => nzero
       | S fuel' =>
           let n2 := (length l / 2 - (length l / 2) mod 8)%nat in
           nadd (pairwise_sum fuel' (take n2 l)) (pairwise_sum fuel' (drop n2 l))
       end.

(** [np.sum]: the reduction starts from the identity [0] and adds the
    pairwise sum of the array. *)
Definition np_sum (l : list T) : T := nadd nzero (pairwise_sum (length l) l).

(** [np.mean(l)]: the sum divided by the number of entries. *)
Definition np_mean (l : list T) : T := ndiv (np_sum l) (nof_nat (length l)).

(** Line 297: [t /= np.mean(np.diff(t))], every entry divided in place. *)
Definition rescale_time (t : list T) : list T :=
  let mu := np_mean (np_diff t) in
  map (fun x => ndiv x mu) t.
End Arrays.

(** The value of a finite float as an exact rational ([0] for the
    infinities and NaN). *)
Definition SF2Q (x : spec_float) : Q :=
  match x with
  | S754_finite s m e =>
      let v := (inject_Z (Z.pos m) * (if 0 <=? e then inject_Z (2 ^ e) else / inject_Z (2 ^ (- e))))%Q in
      if s then (- v)%Q else v
  | _ => 0%Q
  end.


(** [2^e] for an exponent of either sign. *)
Definition pow2 (e : Z) : Q :=
  if 0 <=? e then inject_Z (2 ^ e) else (/ inject_Z (2 ^ (- e)))%Q.

(** ** Burn-in lengths (lines 305-308)

    [burnIn_phaseI = int(np.floor(args.max_num_iterations/5) * 1.2)] and
    [burnIn_phaseII = burnIn_phaseI * 2].  The script is Python 2
    ([iteritems]): [/] on two ints is floor division.  numpy converts the
    int [n/5] to binary64; it is integral, so [np.floor] leaves it; the
    product with the float [1.2] is taken in binary64 and [int] truncates
    it toward zero. *)

(** [int(x)] on a finite binary64 value. *)
Definition f64_to_Z (x : float) : Z :=
  match Prim2SF x with
  | S754_finite s m e =>
      let v := if 0 <=? e then Z.pos m * 2 ^ e else Z.pos m / 2 ^ (- e) in
      if s then - v else v
  | _ => 0
  end.

Definition burnIn_phaseI (max_num_iterations : Z) : Z :=
  f64_to_Z (PrimFloat.mul (f64_of_Z (max_num_iterations / 5)) 1.2%float).

Definition burnIn_phaseII (max_num_iterations : Z) : Z :=
  burnIn_phaseI max_num_iterations * 2.


(** [f] holds on the [k] integers from [z] on. *)
Fixpoint all_from (f : Z -> bool) (k : nat) (z : Z) : bool :=
  match k with
  | O => true
  | S k' => f z && all_from f k' (z + 1)
  end.

(** ** Grouping genes by selected cluster (lines 353-357)

    [optimal_cluster_labels] and [optimal_cluster_labels_original_gene_names]
    are [collections.defaultdict(list)]: reading a missing key gives the
    empty list.  Cluster ids are the integer labels of the selected
    assignment; gene indices are the positions [enumerate] counts. *)

#[local] Open Scope nat_scope.

(** [d[k].append(v)] on a [defaultdict(list)]. *)
Definition dict_append {A : Type} (d : gmap Z (list A)) (k : Z) (v : A) : gmap Z (list A) :=
  <[k := (d !!! k) ++ [v]]> d.

(** [enumerate(l)], counting from [n]. *)
Fixpoint enumerate_from {A : Type} (n : nat) (l : list A) : list (nat * A) :=
  match l with
  | [] => []
  | x :: l' => (n, x) :: enumerate_from (S n) l'
  end.

Definition enumerate {A : Type} (l : list A) : list (nat * A) := enumerate_from 0 l.

(** One pass of the loop body of lines 356-357. *)
Definition group_step (acc : gmap Z (list nat) * gmap Z (list string))
    (item : nat * (string * Z)) : gmap Z (list nat) * gmap Z (list string) :=
  let '(gene, (gene_name, cluster)) := item in
  (dict_append acc.1 cluster gene, dict_append acc.2 cluster gene_name).

(** The loop of lines 355-357 over [enumerate(zip(gene_names, optimal_clusters))];
    [zip] stops at the shorter of the two. *)
Definition group_genes (gene_names : list string) (optimal_clusters : list Z)
    : gmap Z (list nat) * gmap Z (list string) :=
  fold_left group_step (enumerate (zip gene_names optimal_clusters)) (∅, ∅).

Definition optimal_cluster_labels (gene_names : list string) (optimal_clusters : list Z)
    : gmap Z (list nat) :=
  (group_genes gene_names optimal_clusters).1.

Definition optimal_cluster_labels_original_gene_names
    (gene_names : list string) (optimal_clusters : list Z) : gmap Z (list string) :=
  (group_genes gene_names optimal_clusters).2.

(** The positions of [a], counted from [n], that carry the label [c]. *)
Fixpoint positions_from (n : nat) (c : Z) (a : list Z) : list nat :=
  match a with
  | [] => []
  | x :: a' =>
      if decide (x = c) then n :: positions_from (S n) c a'
      else positions_from (S n) c a'
  end.

(** What a [defaultdict(list)] holds under a key, given the list of all
    the values appended under it: nothing while that list is empty. *)
Definition held {A : Type} (l : list A) : option (list A) :=
  match l with [] => None | _ => Some l end.

(** The sum of the lengths of the member lists of a dictionary. *)
Definition total_members {A : Type} (d : gmap Z (list A)) : nat :=
  sum_list_with (fun item => length item.2) (map_to_list d).

#[local] Close Scope nat_scope.

(** ** The command line (lines 48-260)

    [args] is the namespace [parser.parse_args()] returns: each field is the
    [dest] of one [add_argument], with the Python type [type=] gives it.
    The two required options have no default and are [None] when absent. *)

#[local] Open Scope string_scope.
#[local] Open Scope list_scope.

Module args.
Record namespace : Type := {
  gene_expression_matrix : option string;
  output_path_prefix : option string;
  max_num_iterations : Z;
  max_iters : Z;
  s : Z;
  optimizer : string;
  alpha : float;
  m : Z;
  sigma_n2_shape : float;
  sigma_n2_rate : float;
  length_scale_mu : float;
  length_scale_sigma : float;
  sigma_f_mu : float;
  sigma_f_sigma : float;
  check_convergence : bool;
  plot : bool;
  true_times : bool;
  do_not_mean_center : bool;
  criterion : string;
  plot_types : string;
  time_unit : string
}.

(** The namespace of a command line that gives only [-i] and [-o]. *)
Definition defaults (input output : option string) : namespace := {|
  gene_expression_matrix := input;
  output_path_prefix := output;
  max_num_iterations := 1000;
  max_iters := 1000;
  s := 3;
  optimizer := "lbfgsb";
  alpha := 1%float;
  m := 4;
  sigma_n2_shape := 12%float;
  sigma_n2_rate := 2%float;
  length_scale_mu := 0%float;
  length_scale_sigma := 1%float;
  sigma_f_mu := 0%float;
  sigma_f_sigma := 1%float;
  check_convergence := false;
  plot := false;
  true_times := false;
  do_not_mean_center := false;
  criterion := "MAP";
  plot_types := "pdf";
  time_unit := ""
|}.

(** The same command line with another [--optimizer]. *)
Definition with_optimizer (name : string) (a : namespace) : namespace := {|
  gene_expression_matrix := gene_expression_matrix a;
  output_path_prefix := output_path_prefix a;
  max_num_iterations := max_num_iterations a;
  max_iters := max_iters a;
  s := s a;
  optimizer := name;
  alpha := alpha a;
  m := m a;
  sigma_n2_shape := sigma_n2_shape a;
  sigma_n2_rate := sigma_n2_rate a;
  length_scale_mu := length_scale_mu a;
  length_scale_sigma := length_scale_sigma a;
  sigma_f_mu := sigma_f_mu a;
  sigma_f_sigma := sigma_f_sigma a;
  check_convergence := check_convergence a;
  plot := plot a;
  true_times := true_times a;
  do_not_mean_center := do_not_mean_center a;
  criterion := criterion a;
  plot_types := plot_types a;
  time_unit := time_unit a
|}.

(** The same command line with another [--criterion]. *)
Definition with_criterion (name : string) (a : namespace) : namespace := {|
  gene_expression_matrix := gene_expression_matrix a;
  output_path_prefix := output_path_prefix a;
  max_num_iterations := max_num_iterations a;
  max_iters := max_iters a;
  s := s a;
  optimizer := optimizer a;
  alpha := alpha a;
  m := m a;
  sigma_n2_shape := sigma_n2_shape a;
  sigma_n2_rate := sigma_n2_rate a;
  length_scale_mu := length_scale_mu a;
  length_scale_sigma := length_scale_sigma a;
  sigma_f_mu := sigma_f_mu a;
  sigma_f_sigma := sigma_f_sigma a;
  check_convergence := check_convergence a;
  plot := plot a;
  true_times := true_times a;
  do_not_mean_center := do_not_mean_center a;
  criterion := name;
  plot_types := plot_types a;
  time_unit := time_unit a
|}.

(** The same command line with other [--alpha], [-m] and [-s]. *)
Definition with_prior (alpha' : float) (m' s' : Z) (a : namespace) : namespace := {|
  gene_expression_matrix := gene_expression_matrix a;
  output_path_prefix := output_path_prefix a;
  max_num_iterations := max_num_iterations a;
  max_iters := max_iters a;
  s := s';
  optimizer := optimizer a;
  alpha := alpha';
  m := m';
  sigma_n2_shape := sigma_n2_shape a;
  sigma_n2_rate := sigma_n2_rate a;
  length_scale_mu := length_scale_mu a;
  length_scale_sigma := length_scale_sigma a;
  sigma_f_mu := sigma_f_mu a;
  sigma_f_sigma := sigma_f_sigma a;
  check_convergence := check_convergence a;
  plot := plot a;
  true_times := true_times a;
  do_not_mean_center := do_not_mean_center a;
  criterion := criterion a;
  plot_types := plot_types a;
  time_unit := time_unit a
|}.
End args.

(** The accepted names of line 279. *)
Definition criteria : list string :=
  ["MAP"; "MPEAR"; "least_squares"; "h_clust_avg"; "h_clust_comp"].

(** The four optimizers the help text of [--optimizer] documents. *)
Definition documented_optimizers : list string :=
  ["lbfgsb"; "fmin_tnc"; "simplex"; "scg"].

(** Python's [s.split(sep)] for a one-character separator. *)
Fixpoint split_on (sep : ascii) (s : string) : list string :=
  match s with
  | EmptyString => [EmptyString]
  | String c s' =>
      if Ascii.eqb c sep then EmptyString :: split_on sep s'
      else match split_on sep s' with
           | h :: rest => String c h :: rest
           | [] => [String c EmptyString]
           end
  end.

Definition comma : ascii := Ascii.ascii_of_nat 44.

(** A Python exception, as far as a caller can tell exceptions apart: by
    its class (and message).  The script itself raises [ValueError]
    (line 280), [SystemExit] from [exit()] (line 273), [IndexError] from
    list indexing (line 386) and [NameError] for a variable never bound; a
    called library can raise these classes too, or any other class
    ([Raised]). *)
Inductive error (exn : Type) : Type :=
| ValueError (msg : string)
| SystemExit
| IndexError
| NameError (name : string)
| Raised (e : exn).
Arguments ValueError {exn} msg.
Arguments SystemExit {exn}.
Arguments IndexError {exn}.
Arguments NameError {exn} name.
Arguments Raised {exn} e.

Definition criterion_message : string :=
  "incorrect criterion. Please choose from among the following options:
MPEAR, MAP, least_squares, h_clust_avg, h_clust_comp".

(** Lines 271-281: the checks between [parse_args] and the seed: a
    required option is missing (the script prints the help text and calls
    [exit()]), the criterion is not an accepted name (the [ValueError] of
    line 280), or the run goes on with the input argument and the output
    path prefix. *)
Inductive checked : Type :=
| MissingRequired
| BadCriterion
| Accepted (input output_path_prefix : string).

Definition check_arguments (a : args.namespace) : checked :=
  match args.gene_expression_matrix a, args.output_path_prefix a with
  | Some input, Some output_path_prefix =>
      if bool_decide (args.criterion a ∈ criteria) then Accepted input output_path_prefix
      else BadCriterion
  | _, _ => MissingRequired
  end.

(** ** The libraries the driver calls

    The values the script only passes around belong to types of the called
    libraries; [rng] is the state of numpy's global random generator and
    [exn] the exceptions a callee raises. *)
Record Foreign : Type := {
  matrix : Type;   (* the expression array [gene_expression_matrix] *)
  noise : Type;    (* [sigma_n] *)
  simmat : Type;   (* the posterior similarity matrix [sim_mat] *)
  frame : Type;    (* a pandas DataFrame of clusterings *)
  grid : Type;     (* [np.array] of such a frame *)
  logliks : Type;  (* [log_likelihoods] *)
  sampler : Type;  (* the [core.gibbs_sampler] object [GS] *)
  gp : Type;       (* a [core.dp_cluster] object *)
  rng : Type;
  exn : Type
}.

(** A library call: it reads and advances the random generator and either
    raises an exception of any class or returns. *)
Definition ext (Σ : Foreign) (A : Type) : Type :=
  rng Σ -> (error (exn Σ) + A) * rng Σ.

(** The twenty positional arguments of [core.gibbs_sampler(...)]
    (lines 322-324), in order. *)
Record SamplerConfig (Σ : Foreign) : Type := {
  gs_gene_expression_matrix : matrix Σ;
  gs_t : list float;
  gs_max_num_iterations : Z;
  gs_max_iters : Z;
  gs_optimizer : string;
  gs_burnIn_phaseI : Z;
  gs_burnIn_phaseII : Z;
  gs_alpha : float;
  gs_m : Z;
  gs_s : Z;
  gs_check_convergence : bool;
  gs_sigma_n : noise Σ;
  gs_sigma_n2_shape : float;
  gs_sigma_n2_rate : float;
  gs_length_scale_mu : float;
  gs_length_scale_sigma : float;
  gs_sigma_f_mu : float;
  gs_sigma_f_sigma : float;
  gs_sq_dist_eps : float;
  gs_post_eps : float
}.
Arguments gs_gene_expression_matrix {Σ} _.
Arguments gs_t {Σ} _.
Arguments gs_max_num_iterations {Σ} _.
Arguments gs_max_iters {Σ} _.
Arguments gs_optimizer {Σ} _.
Arguments gs_burnIn_phaseI {Σ} _.
Arguments gs_burnIn_phaseII {Σ} _.
Arguments gs_alpha {Σ} _.
Arguments gs_m {Σ} _.
Arguments gs_s {Σ} _.
Arguments gs_check_convergence {Σ} _.
Arguments gs_sigma_n {Σ} _.
Arguments gs_sigma_n2_shape {Σ} _.
Arguments gs_sigma_n2_rate {Σ} _.
Arguments gs_length_scale_mu {Σ} _.
Arguments gs_length_scale_sigma {Σ} _.
Arguments gs_sigma_f_mu {Σ} _.
Arguments gs_sigma_f_sigma {Σ} _.
Arguments gs_sq_dist_eps {Σ} _.
Arguments gs_post_eps {Σ} _.

(** What [core.read_gene_expression_matrices] returns (line 292). *)
Record Design (Σ : Foreign) : Type := {
  d_gene_expression_matrix : matrix Σ;
  d_gene_names : list string;
  d_sigma_n : noise Σ;
  d_sigma_n2_shape : float;
  d_sigma_n2_rate : float;
  d_t : list float
}.
Arguments d_gene_expression_matrix {Σ} _.
Arguments d_gene_names {Σ} _.
Arguments d_sigma_n {Σ} _.
Arguments d_sigma_n2_shape {Σ} _.
Arguments d_sigma_n2_rate {Σ} _.
Arguments d_t {Σ} _.

(** What [GS.sampler()] returns (line 326). *)
Record Samples (Σ : Foreign) : Type := {
  sim_mat : simmat Σ;
  all_clusterings : frame Σ;
  sampled_clusterings : frame Σ;
  log_likelihoods : logliks Σ;
  iter_num : Z
}.
Arguments sim_mat {Σ} _.
Arguments all_clusterings {Σ} _.
Arguments sampled_clusterings {Σ} _.
Arguments log_likelihoods {Σ} _.
Arguments iter_num {Σ} _.

(** The called functions, by the names the script calls them.
    [np_vstack t] is [np.vstack(t)] and [rows_transposed m genes] is
    [np.array(np.mat(m[genes,:])).T], the two argument expressions of
    line 361, which the script evaluates itself and which can raise.
    [iteritems] is the order in which Python 2 visits the items of the
    dictionary [optimal_cluster_labels], an order the language leaves to
    the implementation; each item is visited once. *)
Record Env (Σ : Foreign) : Type := {
  np_random_seed : Z -> rng Σ;
  read_gene_expression_matrices :
    list string -> bool -> bool -> float -> float -> ext Σ (Design Σ);
  gibbs_sampler : SamplerConfig Σ -> ext Σ (sampler Σ);
  GS_sampler : sampler Σ -> ext Σ (Samples Σ);
  set_columns : frame Σ -> list string -> error (exn Σ) + frame Σ;
  np_array : frame Σ -> grid Σ;
  best_clustering_by_mpear : grid Σ -> simmat Σ -> ext Σ (list Z);
  best_clustering_by_log_likelihood : grid Σ -> logliks Σ -> ext Σ (list Z);
  best_clustering_by_sq_dist : grid Σ -> simmat Σ -> ext Σ (list Z);
  best_clustering_by_h_clust : simmat Σ -> string -> ext Σ (list Z);
  np_vstack : list float -> error (exn Σ) + matrix Σ;
  rows_transposed : matrix Σ -> list nat -> error (exn Σ) + matrix Σ;
  dp_cluster : list nat -> noise Σ -> matrix Σ -> matrix Σ -> Z -> ext Σ (gp Σ);
  iteritems : gmap Z (list nat) -> list (Z * list nat);
  iteritems_once : forall labels, iteritems labels ≡ₚ map_to_list labels;
  update_cluster_attributes :
    gp Σ -> matrix Σ -> float -> float -> float -> float -> float -> float ->
    Z -> Z -> string -> ext Σ (gp Σ);
  save_posterior_similarity_matrix : simmat Σ -> list string -> string -> ext Σ unit;
  save_clusterings : frame Σ -> string -> ext Σ unit;
  save_log_likelihoods : logliks Σ -> string -> ext Σ unit;
  save_cluster_membership_information : gmap Z (list string) -> string -> ext Σ unit;
  plot_similarity_matrix : simmat Σ -> string -> list string -> ext Σ (list nat);
  save_posterior_similarity_matrix_key : list string -> string -> ext Σ unit;
  plot_cluster_sizes_over_iterations :
    grid Σ -> Z -> Z -> Z -> string -> list string -> ext Σ unit;
  plot_cluster_gene_expression :
    gmap Z (gp Σ) -> matrix Σ -> list string -> list float -> list float ->
    string -> string -> list string -> ext Σ unit
}.
Arguments np_random_seed {Σ} _.
Arguments read_gene_expression_matrices {Σ} _.
Arguments gibbs_sampler {Σ} _.
Arguments GS_sampler {Σ} _.
Arguments set_columns {Σ} _.
Arguments np_array {Σ} _.
Arguments best_clustering_by_mpear {Σ} _.
Arguments best_clustering_by_log_likelihood {Σ} _.
Arguments best_clustering_by_sq_dist {Σ} _.
Arguments best_clustering_by_h_clust {Σ} _.
Arguments np_vstack {Σ} _.
Arguments rows_transposed {Σ} _.
Arguments dp_cluster {Σ} _.
Arguments iteritems {Σ} _.
Arguments iteritems_once {Σ} _.
Arguments update_cluster_attributes {Σ} _.
Arguments save_posterior_similarity_matrix {Σ} _.
Arguments save_clusterings {Σ} _.
Arguments save_log_likelihoods {Σ} _.
Arguments save_cluster_membership_information {Σ} _.
Arguments plot_similarity_matrix {Σ} _.
Arguments save_posterior_similarity_matrix_key {Σ} _.
Arguments plot_cluster_sizes_over_iterations {Σ} _.
Arguments plot_cluster_gene_expression {Σ} _.

(** ** Events

    Every call with an effect outside the script leaves one event, in the
    order of the calls.  A selection event carries the arguments handed to
    the selection function. *)
Inductive selection (Σ : Foreign) : Type :=
| ByMPEAR (sampled : grid Σ) (sim : simmat Σ)
| ByLogLikelihood (sampled : grid Σ) (ll : logliks Σ)
| BySqDist (sampled : grid Σ) (sim : simmat Σ)
| ByHClust (sim : simmat Σ) (linkage : string).
Arguments ByMPEAR {Σ} sampled sim.
Arguments ByLogLikelihood {Σ} sampled ll.
Arguments BySqDist {Σ} sampled sim.
Arguments ByHClust {Σ} sim linkage.

Inductive output_file : Type :=
| SimilarityMatrixFile | ClusteringsFile | LogLikelihoodsFile
| OptimalClusteringFile | SimilarityMatrixKeyFile.

Inductive figure : Type :=
| SimilarityMatrixPlot | ClusterSizesPlot | GeneExpressionPlot.

Inductive event (Σ : Foreign) : Type :=
| EvHelp
| EvSeed (n : Z)
| EvRead (paths : list string)
| EvConstruct (cfg : SamplerConfig Σ)
| EvSample
| EvSelect (call : selection Σ)
| EvBuild (cluster : Z) (members : list nat)
| EvOptimize (cluster : Z) (max_iters : Z) (optimizer : string)
| EvSave (file : output_file) (path_prefix : string)
| EvPlot (fig : figure).
Arguments EvHelp {Σ}.
Arguments EvSeed {Σ} n.
Arguments EvRead {Σ} paths.
Arguments EvConstruct {Σ} cfg.
Arguments EvSample {Σ}.
Arguments EvSelect {Σ} call.
Arguments EvBuild {Σ} cluster members.
Arguments EvOptimize {Σ} cluster max_iters optimizer.
Arguments EvSave {Σ} file path_prefix.
Arguments EvPlot {Σ} fig.

(** ** The run monad

    A computation reads and advances the random generator, leaves events,
    and returns a value or raises. *)
Inductive outcome (Σ : Foreign) (A : Type) : Type :=
| Ok (a : A)
| Raise (e : error (exn Σ)).
Arguments Ok {Σ A} a.
Arguments Raise {Σ A} e.

Definition M (Σ : Foreign) (A : Type) : Type :=
  rng Σ -> outcome Σ A * rng Σ * list (event Σ).

Definition ret {Σ : Foreign} {A : Type} (a : A) : M Σ A :=
  fun r => (Ok a, r, []).

Definition raise {Σ : Foreign} {A : Type} (e : error (exn Σ)) : M Σ A :=
  fun r => (Raise e, r, []).

Definition bind {Σ : Foreign} {A B : Type} (c : M Σ A) (k : A -> M Σ B) : M Σ B :=
  fun r =>
    match c r with
    | (Ok a, r1, tr1) => let '(o, r2, tr2) := k a r1 in (o, r2, tr1 ++ tr2)
    | (Raise e, r1, tr1) => (Raise e, r1, tr1)
    end.

Notation "'do' x <- c ; k" := (bind c (fun x => k))
  (at level 10, x name, c at level 100, k at level 200,
   format "'[v' 'do'  x  <-  c ; '/' k ']'").

(** An effect of the script that cannot fail. *)
Definition emit {Σ : Foreign} (ev : event Σ) : M Σ unit :=
  fun r => (Ok tt, r, [ev]).

(** A library call: the event is left when the call is made. *)
Definition call {Σ : Foreign} {A : Type} (ev : event Σ) (f : ext Σ A) : M Σ A :=
  fun r =>
    match f r with
    | (inl e, r1) => (Raise e, r1, [ev])
    | (inr a, r1) => (Ok a, r1, [ev])
    end.

(** A library call without effect that may raise. *)
Definition pure_call {Σ : Foreign} {A : Type} (x : error (exn Σ) + A) : M Σ A :=
  match x with
  | inl e => raise e
  | inr a => ret a
  end.

(** A [for] loop that threads an accumulator. *)
Fixpoint for_each {Σ : Foreign} {A B : Type} (body : B -> A -> M Σ B) (l : list A) (acc : B)
    : M Σ B :=
  match l with
  | [] => ret acc
  | x :: l' => do acc' <- body acc x; for_each body l' acc'
  end.

Definition result_of {Σ : Foreign} {A : Type} (x : outcome Σ A * rng Σ * list (event Σ))
    : outcome Σ A := x.1.1.

Definition trace_of {Σ : Foreign} {A : Type} (x : outcome Σ A * rng Σ * list (event Σ))
    : list (event Σ) := x.2.

(** ** The script, line by line *)

(** Line 314. *)
Definition sq_dist_eps : float := 0.01%float.
Definition post_eps : float := 1e-5%float.

(** The optimal clustering and what is reported about it. *)
Record Report (Σ : Foreign) : Type := {
  r_design : Design Σ;
  r_samples : Samples Σ;
  r_optimal_clusters : list Z;
  r_optimal_cluster_labels : gmap Z (list nat);
  r_optimal_cluster_labels_original_gene_names : gmap Z (list string);
  r_optimal_clusters_GP : gmap Z (gp Σ)
}.
Arguments r_design {Σ} _.
Arguments r_samples {Σ} _.
Arguments r_optimal_clusters {Σ} _.
Arguments r_optimal_cluster_labels {Σ} _.
Arguments r_optimal_cluster_labels_original_gene_names {Σ} _.
Arguments r_optimal_clusters_GP {Σ} _.

(** The design the later phases work on: what the reader returned, with the
    time vector rescaled (line 297). *)
Definition rescaled {Σ : Foreign} (d : Design Σ) : Design Σ := {|
  d_gene_expression_matrix := d_gene_expression_matrix d;
  d_gene_names := d_gene_names d;
  d_sigma_n := d_sigma_n d;
  d_sigma_n2_shape := d_sigma_n2_shape d;
  d_sigma_n2_rate := d_sigma_n2_rate d;
  d_t := rescale_time (d_t d)
|}.

Section Driver.
Context {Σ : Foreign} (E : Env Σ).

(** Line 284: [np.random.seed(1234)] replaces the generator state. *)
Definition seed (n : Z) : M Σ unit :=
  fun _ => (Ok tt, np_random_seed E n, [EvSeed n]).

(** Lines 284-297: seed, read the expression matrices, rescale [t]. *)
Definition phase_design (a : args.namespace) (input : string) : M Σ (Design Σ) :=
  do _ <- seed 1234;
  let paths := split_on comma input in
  do d <- call (EvRead paths)
            (read_gene_expression_matrices E paths (args.true_times a)
               (args.do_not_mean_center a) (args.sigma_n2_shape a) (args.sigma_n2_rate a));
  ret (rescaled d).

(** Lines 306-324: the arguments of [core.gibbs_sampler]. *)
Definition sampler_config (a : args.namespace) (d : Design Σ) : SamplerConfig Σ := {|
  gs_gene_expression_matrix := d_gene_expression_matrix d;
  gs_t := d_t d;
  gs_max_num_iterations := args.max_num_iterations a;
  gs_max_iters := args.max_iters a;
  gs_optimizer := args.optimizer a;
  gs_burnIn_phaseI := burnIn_phaseI (args.max_num_iterations a);
  gs_burnIn_phaseII := burnIn_phaseII (args.max_num_iterations a);
  gs_alpha := args.alpha a;
  gs_m := args.m a;
  gs_s := args.s a;
  gs_check_convergence := args.check_convergence a;
  gs_sigma_n := d_sigma_n d;
  gs_sigma_n2_shape := d_sigma_n2_shape d;
  gs_sigma_n2_rate := d_sigma_n2_rate d;
  gs_length_scale_mu := args.length_scale_mu a;
  gs_length_scale_sigma := args.length_scale_sigma a;
  gs_sigma_f_mu := args.sigma_f_mu a;
  gs_sigma_f_sigma := args.sigma_f_sigma a;
  gs_sq_dist_eps := sq_dist_eps;
  gs_post_eps := post_eps
|}.

(** Lines 322-329: construct the sampler, run it, name the columns. *)
Definition phase_sampling (a : args.namespace) (d : Design Σ) : M Σ (Samples Σ) :=
  let cfg := sampler_config a d in
  do GS <- call (EvConstruct cfg) (gibbs_sampler E cfg);
  do out <- call EvSample (GS_sampler E GS);
  do sampled <- pure_call (set_columns E (sampled_clusterings out) (d_gene_names d));
  do all <- pure_call (set_columns E (all_clusterings out) (d_gene_names d));
  ret {| sim_mat := sim_mat out;
         all_clusterings := all;
         sampled_clusterings := sampled;
         log_likelihoods := log_likelihoods out;
         iter_num := iter_num out |}.

(** The library function a selection event stands for. *)
Definition run_selection (c : selection Σ) : ext Σ (list Z) :=
  match c with
  | ByMPEAR sampled sim => best_clustering_by_mpear E sampled sim
  | ByLogLikelihood sampled ll => best_clustering_by_log_likelihood E sampled ll
  | BySqDist sampled sim => best_clustering_by_sq_dist E sampled sim
  | ByHClust sim linkage => best_clustering_by_h_clust E sim linkage
  end.

(** Lines 338-347: the [if]/[elif] chain on [args.criterion].  When no
    branch is taken [optimal_clusters] stays unbound and its first use
    (line 355) raises [NameError]. *)
Definition phase_selection (criterion : string) (smp : Samples Σ) : M Σ (list Z) :=
  if String.eqb criterion "MPEAR" then
    call (EvSelect (ByMPEAR (np_array E (sampled_clusterings smp)) (sim_mat smp)))
      (best_clustering_by_mpear E (np_array E (sampled_clusterings smp)) (sim_mat smp))
  else if String.eqb criterion "MAP" then
    call (EvSelect (ByLogLikelihood (np_array E (sampled_clusterings smp)) (log_likelihoods smp)))
      (best_clustering_by_log_likelihood E (np_array E (sampled_clusterings smp))
         (log_likelihoods smp))
  else if String.eqb criterion "least_squares" then
    call (EvSelect (BySqDist (np_array E (sampled_clusterings smp)) (sim_mat smp)))
      (best_clustering_by_sq_dist E (np_array E (sampled_clusterings smp)) (sim_mat smp))
  else if String.eqb criterion "h_clust_avg" then
    call (EvSelect (ByHClust (sim_mat smp) "average"))
      (best_clustering_by_h_clust E (sim_mat smp) "average")
  else if String.eqb criterion "h_clust_comp" then
    call (EvSelect (ByHClust (sim_mat smp) "complete"))
      (best_clustering_by_h_clust E (sim_mat smp) "complete")
  else raise (NameError "optimal_clusters").

(** Lines 361-362, the body of the refit loop: the arguments
    [X = np.vstack(t)] and [Y = gene_expression_matrix[genes,:].T] are
    evaluated, in this order, then a fresh [dp_cluster] from the members of
    [cluster] is stored under [cluster], then replaced by what
    [update_cluster_attributes] returns. *)
Definition refit_cluster (a : args.namespace) (d : Design Σ) (smp : Samples Σ)
    (optimal_clusters_GP : gmap Z (gp Σ)) (item : Z * list nat) : M Σ (gmap Z (gp Σ)) :=
  let '(cluster, genes) := item in
  do X <- pure_call (np_vstack E (d_t d));
  do Y <- pure_call (rows_transposed E (d_gene_expression_matrix d) genes);
  do fresh <- call (EvBuild cluster genes)
                (dp_cluster E genes (d_sigma_n d) X Y (iter_num smp));
  let optimal_clusters_GP := <[cluster := fresh]> optimal_clusters_GP in
  do fitted <- call (EvOptimize cluster (args.max_iters a) (args.optimizer a))
                 (update_cluster_attributes E fresh (d_gene_expression_matrix d)
                    (d_sigma_n2_shape d) (d_sigma_n2_rate d)
                    (args.length_scale_mu a) (args.length_scale_sigma a)
                    (args.sigma_f_mu a) (args.sigma_f_sigma a)
                    (iter_num smp) (args.max_iters a) (args.optimizer a));
  ret (<[cluster := fitted]> optimal_clusters_GP).

(** Lines 359-362: the loop over [optimal_cluster_labels.iteritems()], in
    the order in which the interpreter visits the dictionary. *)
Definition phase_refit (a : args.namespace) (d : Design Σ) (smp : Samples Σ)
    (labels : gmap Z (list nat)) : M Σ (gmap Z (gp Σ)) :=
  for_each (refit_cluster a d smp) (iteritems E labels) ∅.

(** Lines 370-373: the four result files. *)
Definition phase_report (d : Design Σ) (smp : Samples Σ)
    (names : gmap Z (list string)) (output_path_prefix : string) : M Σ unit :=
  do _ <- call (EvSave SimilarityMatrixFile output_path_prefix)
            (save_posterior_similarity_matrix E (sim_mat smp) (d_gene_names d)
               output_path_prefix);
  do _ <- call (EvSave ClusteringsFile output_path_prefix)
            (save_clusterings E (sampled_clusterings smp) output_path_prefix);
  do _ <- call (EvSave LogLikelihoodsFile output_path_prefix)
            (save_log_likelihoods E (log_likelihoods smp) output_path_prefix);
  call (EvSave OptimalClusteringFile output_path_prefix)
    (save_cluster_membership_information E names
       (output_path_prefix ++ "_optimal_clustering.txt")%string).

(** [[gene_names[idx] for idx in sim_mat_key]] (line 386). *)
Fixpoint names_at (gene_names : list string) (key : list nat) : option (list string) :=
  match key with
  | [] => Some []
  | idx :: key' =>
      match gene_names !! idx, names_at gene_names key' with
      | Some name, Some rest => Some (name :: rest)
      | _, _ => None
      end
  end.

(** Lines 381-388: the figures, when [--plot] is given. *)
Definition phase_plot (a : args.namespace) (d : Design Σ) (smp : Samples Σ)
    (optimal_clusters_GP : gmap Z (gp Σ)) (output_path_prefix : string) : M Σ unit :=
  if args.plot a then
    let plot_types := split_on comma (args.plot_types a) in
    do sim_mat_key <- call (EvPlot SimilarityMatrixPlot)
                        (plot_similarity_matrix E (sim_mat smp) output_path_prefix plot_types);
    do key_names <- match names_at (d_gene_names d) sim_mat_key with
                    | Some l => ret l
                    | None => raise IndexError
                    end;
    do _ <- call (EvSave SimilarityMatrixKeyFile output_path_prefix)
              (save_posterior_similarity_matrix_key E key_names output_path_prefix);
    do _ <- call (EvPlot ClusterSizesPlot)
              (plot_cluster_sizes_over_iterations E (np_array E (all_clusterings smp))
                 (burnIn_phaseI (args.max_num_iterations a))
                 (burnIn_phaseII (args.max_num_iterations a))
                 (args.m a) output_path_prefix plot_types);
    call (EvPlot GeneExpressionPlot)
      (plot_cluster_gene_expression E optimal_clusters_GP (d_gene_expression_matrix d)
         (d_gene_names d) (d_t d) (d_t d) (args.time_unit a) output_path_prefix plot_types)
  else ret tt.

(** Lines 284-388, for a command line that passed the checks. *)
Definition main (a : args.namespace) (input output_path_prefix : string) : M Σ (Report Σ) :=
  do d <- phase_design a input;
  do smp <- phase_sampling a d;
  do optimal_clusters <- phase_selection (args.criterion a) smp;
  let groups := group_genes (d_gene_names d) optimal_clusters in
  do optimal_clusters_GP <- phase_refit a d smp groups.1;
  do _ <- phase_report d smp groups.2 output_path_prefix;
  do _ <- phase_plot a d smp optimal_clusters_GP output_path_prefix;
  ret {| r_design := d;
         r_samples := smp;
         r_optimal_clusters := optimal_clusters;
         r_optimal_cluster_labels := groups.1;
         r_optimal_cluster_labels_original_gene_names := groups.2;
         r_optimal_clusters_GP := optimal_clusters_GP |}.

(** The whole script, from the parsed command line on. *)
Definition run (a : args.namespace) : M Σ (Report Σ) :=
  match check_arguments a with
  | MissingRequired => do _ <- emit EvHelp; raise SystemExit
  | BadCriterion => raise (ValueError criterion_message)
  | Accepted input output_path_prefix => main a input output_path_prefix
  end.

End Driver.

(** ** A small environment

    Three genes at the time points 1, 2, 7; every library call succeeds and
    advances the generator state (a counter) by one; every selection
    function returns the assignment [0; 0; 1].  A cluster object records
    its members and whether its hyperparameters were optimized. *)
Module Demo.

Definition Σ : Foreign := {|
  matrix := unit; noise := unit; simmat := unit; frame := list string;
  grid := unit; logliks := unit; sampler := unit;
  gp := list nat * bool; rng := nat; exn := string
|}.

Definition tick {A : Type} (a : A) : ext Σ A := fun r : nat => (inr a, S r).

Definition design : Design Σ := {|
  d_gene_expression_matrix := tt : matrix Σ;
  d_gene_names := ["g1"; "g2"; "g3"];
  d_sigma_n := tt : noise Σ;
  d_sigma_n2_shape := 12%float;
  d_sigma_n2_rate := 2%float;
  d_t := [1%float; 2%float; 7%float]
|}.

Definition samples : Samples Σ := {|
  sim_mat := tt : simmat Σ;
  all_clusterings := [] : frame Σ;
  sampled_clusterings := [] : frame Σ;
  log_likelihoods := tt : logliks Σ;
  iter_num := 1000
|}.

(** The items of a dictionary by ascending key: the order in which
    CPython 2 visits a small dictionary whose keys are the integers
    0, 1, 2, ... *)
Definition by_key (x y : Z * list nat) : Prop := x.1 <= y.1.

Definition by_key_dec (x y : Z * list nat) : Decision (by_key x y) :=
  Z_le_dec x.1 y.1.

Definition ascending (labels : gmap Z (list nat)) : list (Z * list nat) :=
  @merge_sort _ by_key by_key_dec (map_to_list labels).

Definition env : Env Σ := {|
  np_random_seed := fun n => Z.to_nat n : rng Σ;
  read_gene_expression_matrices := fun _ _ _ _ _ => tick design;
  gibbs_sampler := fun _ => tick (tt : sampler Σ);
  GS_sampler := fun _ => tick samples;
  set_columns := fun _ names => inr (names : frame Σ);
  np_array := fun _ => tt : grid Σ;
  best_clustering_by_mpear := fun _ _ => tick [0; 0; 1];
  best_clustering_by_log_likelihood := fun _ _ => tick [0; 0; 1];
  best_clustering_by_sq_dist := fun _ _ => tick [0; 0; 1];
  best_clustering_by_h_clust := fun _ _ => tick [0; 0; 1];
  np_vstack := fun _ => inr (tt : matrix Σ);
  rows_transposed := fun _ _ => inr (tt : matrix Σ);
  dp_cluster := fun genes _ _ _ _ => tick ((genes, false) : gp Σ);
  iteritems := ascending;
  iteritems_once := fun labels => merge_sort_Permutation by_key (map_to_list labels);
  update_cluster_attributes := fun g _ _ _ _ _ _ _ _ _ _ => tick ((g.1, true) : gp Σ);
  save_posterior_similarity_matrix := fun _ _ _ => tick tt;
  save_clusterings := fun _ _ => tick tt;
  save_log_likelihoods := fun _ _ => tick tt;
  save_cluster_membership_information := fun _ _ => tick tt;
  plot_similarity_matrix := fun _ _ _ => tick [0%nat; 1%nat; 2%nat];
  save_posterior_similarity_matrix_key := fun _ _ => tick tt;
  plot_cluster_sizes_over_iterations := fun _ _ _ _ _ _ => tick tt;
  plot_cluster_gene_expression := fun _ _ _ _ _ _ _ _ => tick tt
|}.

(** [DP_GP_cluster.py -i expr.txt -o out]. *)
Definition command_line : args.namespace :=
  args.defaults (Some "expr.txt") (Some "out").

End Demo.

(** ** Reading traces *)

(** The position of an event in the schedule of the script. *)
Definition stage {Σ : Foreign} (ev : event Σ) : nat :=
  match ev with
  | EvHelp => 0
  | EvSeed _ => 1
  | EvRead _ => 2
  | EvConstruct _ => 3
  | EvSample => 4
  | EvSelect _ => 5
  | EvBuild _ _ => 6
  | EvOptimize _ _ _ => 6
  | EvSave SimilarityMatrixFile _ => 7
  | EvSave ClusteringsFile _ => 8
  | EvSave LogLikelihoodsFile _ => 9
  | EvSave OptimalClusteringFile _ => 10
  | EvPlot SimilarityMatrixPlot => 11
  | EvSave SimilarityMatrixKeyFile _ => 12
  | EvPlot ClusterSizesPlot => 13
  | EvPlot GeneExpressionPlot => 14
  end%nat.

(** [e2] may come after [e1]: it belongs to a later stage, or both belong
    to the refit loop. *)
Definition follows {Σ : Foreign} (e1 e2 : event Σ) : Prop :=
  (stage e1 < stage e2)%nat \/ (stage e1 = 6%nat /\ stage e2 = 6%nat).

(** The events of one pass of the refit loop, and of the whole loop. *)
Definition pass_events {Σ : Foreign} (a : args.namespace) (item : Z * list nat)
    : list (event Σ) :=
  [EvBuild item.1 item.2; EvOptimize item.1 (args.max_iters a) (args.optimizer a)].

Definition refit_events {Σ : Foreign} (E : Env Σ) (a : args.namespace)
    (labels : gmap Z (list nat)) : list (event Σ) :=
  flat_map (pass_events a) (iteritems E labels).

Definition report_events {Σ : Foreign} (output_path_prefix : string) : list (event Σ) :=
  [EvSave SimilarityMatrixFile output_path_prefix;
   EvSave ClusteringsFile output_path_prefix;
   EvSave LogLikelihoodsFile output_path_prefix;
   EvSave OptimalClusteringFile output_path_prefix].

Definition plot_events {Σ : Foreign} (a : args.namespace) (output_path_prefix : string)
    : list (event Σ) :=
  if args.plot a then
    [EvPlot SimilarityMatrixPlot; EvSave SimilarityMatrixKeyFile output_path_prefix;
     EvPlot ClusterSizesPlot; EvPlot GeneExpressionPlot]
  else [].


Definition is_read {Σ : Foreign} (ev : event Σ) : bool :=
  match ev with EvRead _ => true | _ => false end.

(** The selection call the documentation of [--criterion] and section 4.3 of
    the specification give for each accepted name: MAP takes the sampled
    clusterings and the log-likelihoods, MPEAR and least_squares the sampled
    clusterings and the similarity matrix, the two hierarchical criteria
    the similarity matrix alone, with average or complete linkage. *)
Definition documented_selection {Σ : Foreign} (criterion : string)
    (sampled : grid Σ) (sim : simmat Σ) (ll : logliks Σ) : option (selection Σ) :=
  if String.eqb criterion "MAP" then Some (ByLogLikelihood sampled ll)
  else if String.eqb criterion "MPEAR" then Some (ByMPEAR sampled sim)
  else if String.eqb criterion "least_squares" then Some (BySqDist sampled sim)
  else if String.eqb criterion "h_clust_avg" then Some (ByHClust sim "average")
  else if String.eqb criterion "h_clust_comp" then Some (ByHClust sim "complete")
  else None.

(** [fitted] is what the refit of the member list [genes] returns: a fresh
    [dp_cluster] built from [genes], [np.vstack(t)] and the rows of
    [genes], then [update_cluster_attributes] on it
    with the run's [max_iters] and [optimizer]. *)
Definition refit_of {Σ : Foreign} (E : Env Σ) (a : args.namespace) (d : Design Σ)
    (smp : Samples Σ) (genes : list nat) (fitted : gp Σ) : Prop :=
  exists (X Y : matrix Σ) (fresh : gp Σ) (r1 r2 r3 : rng Σ),
    np_vstack E (d_t d) = inr X /\
    rows_transposed E (d_gene_expression_matrix d) genes = inr Y /\
    dp_cluster E genes (d_sigma_n d) X Y (iter_num smp) r1 = (inr fresh, r2) /\
    update_cluster_attributes E fresh (d_gene_expression_matrix d)
      (d_sigma_n2_shape d) (d_sigma_n2_rate d)
      (args.length_scale_mu a) (args.length_scale_sigma a)
      (args.sigma_f_mu a) (args.sigma_f_sigma a)
      (iter_num smp) (args.max_iters a) (args.optimizer a) r2
      = (inr fitted, r3).

(** A trace whose events all lie in the stages [lo..hi], in order. *)
Definition within {Σ : Foreign} (lo hi : nat) (tr : list (event Σ)) : Prop :=
  StronglySorted follows tr /\ Forall (fun ev => (lo <= stage ev <= hi)%nat) tr.

(** How often the refit loop built, and optimized, the cluster [c]. *)
Definition is_build {Σ : Foreign} (c : Z) (ev : event Σ) : bool :=
  match ev with EvBuild c' _ => Z.eqb c' c | _ => false end.

Definition is_optimize {Σ : Foreign} (c : Z) (ev : event Σ) : bool :=
  match ev with EvOptimize c' _ _ => Z.eqb c' c | _ => false end.

Definition builds_of {Σ : Foreign} (c : Z) (tr : list (event Σ)) : nat :=
  length (List.filter (is_build c) tr).

Definition optimizations_of {Σ : Foreign} (c : Z) (tr : list (event Σ)) : nat :=
  length (List.filter (is_optimize c) tr).

(** ** How far a run got

    [through_X ... tr]: the phases up to X have returned, leaving the trace
    [tr] and the generator in state [r']. *)
Section Progress.
Context {Σ : Foreign} (E : Env Σ) (a : args.namespace) (input : string) (r : rng Σ).

Definition through_design (d : Design Σ) (r' : rng Σ) (tr : list (event Σ)) : Prop :=
  phase_design E a input r = (Ok d, r', tr).

Definition through_sampling (d : Design Σ) (smp : Samples Σ)
    (r' : rng Σ) (tr : list (event Σ)) : Prop :=
  exists r1 tr1 tr2,
    through_design d r1 tr1 /\
    phase_sampling E a d r1 = (Ok smp, r', tr2) /\ tr = tr1 ++ tr2.

Definition through_selection (d : Design Σ) (smp : Samples Σ) (optimal_clusters : list Z)
    (r' : rng Σ) (tr : list (event Σ)) : Prop :=
  exists r2 tr2 tr3,
    through_sampling d smp r2 tr2 /\
    phase_selection E (args.criterion a) smp r2 = (Ok optimal_clusters, r', tr3) /\
    tr = tr2 ++ tr3.

Definition through_refit (d : Design Σ) (smp : Samples Σ) (optimal_clusters : list Z)
    (optimal_clusters_GP : gmap Z (gp Σ)) (r' : rng Σ) (tr : list (event Σ)) : Prop :=
  exists r3 tr3 tr4,
    through_selection d smp optimal_clusters r3 tr3 /\
    phase_refit E a d smp (optimal_cluster_labels (d_gene_names d) optimal_clusters) r3
      = (Ok optimal_clusters_GP, r', tr4) /\
    tr = tr3 ++ tr4.

Definition through_report (output_path_prefix : string)
    (d : Design Σ) (smp : Samples Σ) (optimal_clusters : list Z)
    (optimal_clusters_GP : gmap Z (gp Σ)) (r' : rng Σ) (tr : list (event Σ)) : Prop :=
  exists r4 tr4 tr5,
    through_refit d smp optimal_clusters optimal_clusters_GP r4 tr4 /\
    phase_report E d smp
      (optimal_cluster_labels_original_gene_names (d_gene_names d) optimal_clusters)
      output_path_prefix r4 = (Ok tt, r', tr5) /\
    tr = tr4 ++ tr5.

End Progress.

(** The trace [tr] of a run starts with the trace of a sampler that has
    returned; of a selection that has returned; of a refit loop that has
    completed. *)
Definition sampler_returned_in {Σ : Foreign} (E : Env Σ) (a : args.namespace)
    (input : string) (r : rng Σ) (tr : list (event Σ)) : Prop :=
  exists d smp r' tr', through_sampling E a input r d smp r' tr' /\ tr' `prefix_of` tr.

Definition selection_returned_in {Σ : Foreign} (E : Env Σ) (a : args.namespace)
    (input : string) (r : rng Σ) (tr : list (event Σ)) : Prop :=
  exists d smp opt r' tr', through_selection E a input r d smp opt r' tr' /\ tr' `prefix_of` tr.

Definition refit_completed_in {Σ : Foreign} (E : Env Σ) (a : args.namespace)
    (input : string) (r : rng Σ) (tr : list (event Σ)) : Prop :=
  exists d smp opt gps r' tr',
    through_refit E a input r d smp opt gps r' tr' /\ tr' `prefix_of` tr.


(** ** Reading strings and traces further *)

(** Whether the character [c] occurs in [s], and how often. *)
Fixpoint occurs (c : ascii) (s : string) : bool :=
  match s with
  | EmptyString => false
  | String c' s' => Ascii.eqb c' c || occurs c s'
  end.

Fixpoint occurrences (c : ascii) (s : string) : nat :=
  match s with
  | EmptyString => 0%nat
  | String c' s' => ((if Ascii.eqb c' c then 1 else 0) + occurrences c s')%nat
  end.

(** Python's [sep.join(pieces)] for a one-character separator. *)
Definition join_on (sep : ascii) (pieces : list string) : string :=
  String.concat (String sep EmptyString) pieces.

(** The gene names of the zipped assignment that carry the label [c], in
    scan order. *)
Definition names_labelled (c : Z) (pairs : list (string * Z)) : list string :=
  (filter (fun pair : string * Z => pair.2 = c) pairs).*1.

(** The events of the stage [k]. *)
Definition at_stage {Σ : Foreign} (k : nat) (ev : event Σ) : bool :=
  Nat.eqb (stage ev) k.

(** The same command line with [--plot]. *)
Definition with_plot (a : args.namespace) : args.namespace := {|
  args.gene_expression_matrix := args.gene_expression_matrix a;
  args.output_path_prefix := args.output_path_prefix a;
  args.max_num_iterations := args.max_num_iterations a;
  args.max_iters := args.max_iters a;
  args.s := args.s a;
  args.optimizer := args.optimizer a;
  args.alpha := args.alpha a;
  args.m := args.m a;
  args.sigma_n2_shape := args.sigma_n2_shape a;
  args.sigma_n2_rate := args.sigma_n2_rate a;
  args.length_scale_mu := args.length_scale_mu a;
  args.length_scale_sigma := args.length_scale_sigma a;
  args.sigma_f_mu := args.sigma_f_mu a;
  args.sigma_f_sigma := args.sigma_f_sigma a;
  args.check_convergence := args.check_convergence a;
  args.plot := true;
  args.true_times := args.true_times a;
  args.do_not_mean_center := args.do_not_mean_center a;
  args.criterion := args.criterion a;
  args.plot_types := args.plot_types a;
  args.time_unit := args.time_unit a
|}.

(** ** Environments in which a call goes wrong

    [Faulty.env key singletons selected]: as [Demo.env], but
    [plot_similarity_matrix] returns the ordering [key], [dp_cluster]
    raises on a cluster with a single member unless [singletons] is set,
    and every selection function returns the assignment [selected]. *)
Module Faulty.

Definition env (key : list nat) (singletons : bool) (selected : list Z) : Env Demo.Σ := {|
  np_random_seed := np_random_seed Demo.env;
  read_gene_expression_matrices := read_gene_expression_matrices Demo.env;
  gibbs_sampler := gibbs_sampler Demo.env;
  GS_sampler := GS_sampler Demo.env;
  set_columns := set_columns Demo.env;
  np_array := np_array Demo.env;
  best_clustering_by_mpear := fun _ _ => Demo.tick selected;
  best_clustering_by_log_likelihood := fun _ _ => Demo.tick selected;
  best_clustering_by_sq_dist := fun _ _ => Demo.tick selected;
  best_clustering_by_h_clust := fun _ _ => Demo.tick selected;
  dp_cluster := fun genes _ _ _ _ =>
    match genes with
    | [_] => if singletons then Demo.tick ((genes, false) : gp Demo.Σ)
             else fun r : nat => (inl (Raised "singleton"), r)
    | _ => Demo.tick ((genes, false) : gp Demo.Σ)
    end;
  np_vstack := np_vstack Demo.env;
  rows_transposed := rows_transposed Demo.env;
  iteritems := iteritems Demo.env;
  iteritems_once := iteritems_once Demo.env;
  update_cluster_attributes := update_cluster_attributes Demo.env;
  save_posterior_similarity_matrix := save_posterior_similarity_matrix Demo.env;
  save_clusterings := save_clusterings Demo.env;
  save_log_likelihoods := save_log_likelihoods Demo.env;
  save_cluster_membership_information := save_cluster_membership_information Demo.env;
  plot_similarity_matrix := fun _ _ _ => Demo.tick key;
  save_posterior_similarity_matrix_key := save_posterior_similarity_matrix_key Demo.env;
  plot_cluster_sizes_over_iterations := plot_cluster_sizes_over_iterations Demo.env;
  plot_cluster_gene_expression := plot_cluster_gene_expression Demo.env
|}.

End Faulty.


(** * Proofs *)

#[local] Open Scope Z_scope.

(** Closes one case of an inversion: the progress made, the phase that
    ended the run, and the trace up to reassociation. *)
Ltac ends_here T H :=
  split; [exact T | split; [exact H | split; [now rewrite <- ?app_assoc | reflexivity]]].

(** ** Theorems: rounding to binary64

    What [SpecFloat] does when it rounds an exact positive value
    [M * 2^E] to 53 bits, as far as the burn-in lengths need it. *)


Lemma digits2_pos_bounds (p : positive) :
  2 ^ (Z.pos (digits2_pos p) - 1) <= Z.pos p < 2 ^ Z.pos (digits2_pos p).
Proof.
  induction p as [p IH|p IH|]; simpl digits2_pos.
  - rewrite Pos2Z.inj_succ, Z.pow_succ_r by lia.
    replace (Z.succ (Z.pos (digits2_pos p)) - 1) with (Z.succ (Z.pos (digits2_pos p) - 1)) by lia.
    rewrite Z.pow_succ_r by lia. lia.
  - rewrite Pos2Z.inj_succ, Z.pow_succ_r by lia.
    replace (Z.succ (Z.pos (digits2_pos p)) - 1) with (Z.succ (Z.pos (digits2_pos p) - 1)) by lia.
    rewrite Z.pow_succ_r by lia. lia.
  - simpl. lia.
Qed.

Lemma digits2_pos_unique (p : positive) (k : Z) :
  2 ^ (k - 1) <= Z.pos p < 2 ^ k -> Z.pos (digits2_pos p) = k.
Proof.
  intros [Hlo Hhi]. pose proof (digits2_pos_bounds p) as [Hlo' Hhi'].
  assert (Hk : 0 < k).
  { destruct (Z_lt_le_dec 0 k) as [|Hle]; [assumption|].
    assert (2 ^ k <= 2 ^ 0) by (destruct (Z_lt_le_dec k 0);
      [rewrite Z.pow_neg_r by lia; simpl; lia|apply Z.pow_le_mono_r; lia]).
    simpl in *. lia. }
  set (d := Z.pos (digits2_pos p)) in *.
  destruct (Z_lt_le_dec d k) as [Hlt|Hge].
  - assert (2 ^ d <= 2 ^ (k - 1)) by (apply Z.pow_le_mono_r; lia). lia.
  - destruct (Z_lt_le_dec k d) as [Hlt|Hle]; [|lia].
    assert (2 ^ k <= 2 ^ (d - 1)) by (apply Z.pow_le_mono_r; lia). lia.
Qed.

Lemma shr_1_m (mrs : shr_record) :
  0 <= shr_m mrs -> shr_m (shr_1 mrs) = shr_m mrs / 2 /\ 0 <= shr_m (shr_1 mrs).
Proof.
  destruct mrs as [m r s]. simpl. intros Hm.
  destruct m as [|[p|p|]|p]; simpl; try lia;
    (split; [rewrite <- Z.div2_div; reflexivity|lia]).
Qed.

Lemma iter_shr_1_m (p : positive) :
  forall mrs, 0 <= shr_m mrs ->
  shr_m (SpecFloat.iter_pos shr_1 p mrs) = shr_m mrs / 2 ^ Z.pos p /\
  0 <= shr_m (SpecFloat.iter_pos shr_1 p mrs).
Proof.
  induction p as [p IH|p IH|]; intros mrs Hm; simpl SpecFloat.iter_pos.
  - destruct (shr_1_m mrs Hm) as [E1 P1].
    destruct (IH _ P1) as [E2 P2]. destruct (IH _ P2) as [E3 P3].
    split; [|exact P3]. rewrite E3, E2, E1, !Z.div_div by lia. f_equal.
    replace (Z.pos p~1) with (1 + Z.pos p + Z.pos p) by lia.
    rewrite !Z.pow_add_r by lia. change (2 ^ 1) with 2. lia.
  - destruct (IH _ Hm) as [E2 P2]. destruct (IH _ P2) as [E3 P3].
    split; [|exact P3]. rewrite E3, E2, !Z.div_div by lia. f_equal.
    replace (Z.pos p~0) with (Z.pos p + Z.pos p) by lia.
    rewrite Z.pow_add_r by lia. reflexivity.
  - destruct (shr_1_m mrs Hm) as [E1 P1]. split; [|exact P1]. exact E1.
Qed.

Lemma round_nearest_even_near (m : Z) (l : location) :
  m <= round_nearest_even m l <= m + 1.
Proof.
  destruct l as [|[| |]]; simpl; try lia. destruct (Z.even m); lia.
Qed.

Lemma fexp_normal (e : Z) : -1074 <= e - 53 -> fexp prec emax e = e - 53.
Proof. unfold fexp, emin, prec, emax. lia. Qed.

(** Rounding an exact positive value [M * 2^E] in the normal range. *)
Lemma binary_round_aux_big (M : positive) (E : Z) :
  let d := Z.pos (digits2_pos M) in
  let s := d - 53 in
  0 < s -> -1074 <= d + E - 53 ->
  let R := binary_round_aux prec emax false (Z.pos M) E loc_Exact in
  R = S754_infinity false /\ 1024 <= d + E \/
  exists (m : positive) (e : Z),
    R = S754_finite false m e /\
    Z.pos (digits2_pos m) = 53 /\ e <= 971 /\
    (e = E + s \/ e = E + s + 1) /\
    Z.pos M / 2 ^ s <= Z.pos m * 2 ^ (e - (E + s)) <= Z.pos M / 2 ^ s + 1.
Proof.
  intros d s Hs Hlo R.
  pose proof (digits2_pos_bounds M) as [HM1 HM2]. fold d in HM1, HM2.
  assert (HR : R = binary_round_aux prec emax false (Z.pos M) E loc_Exact) by reflexivity.
  clearbody R.
  unfold binary_round_aux, shr_fexp in HR.
  change (Zdigits2 (Z.pos M)) with d in HR. rewrite (fexp_normal (d + E)) in HR by lia.
  replace (d + E - 53 - E) with s in HR by (unfold s; lia).
  destruct s as [|p|p] eqn:Hp; try lia.
  unfold shr at 1 in HR.
  set (mrs := SpecFloat.iter_pos shr_1 p (shr_record_of_loc (Z.pos M) loc_Exact)) in HR.
  destruct (iter_shr_1_m p (shr_record_of_loc (Z.pos M) loc_Exact)) as [Hm1 Hpos];
    [simpl; lia|]. fold mrs in Hm1, Hpos. simpl shr_m in Hm1 at 2.
  set (m1 := shr_m mrs) in *.
  assert (Hm1b : 2 ^ 52 <= m1 < 2 ^ 53).
  { rewrite Hm1. replace d with (Z.pos p + 53) in HM1, HM2 by lia.
    rewrite Z.pow_add_r in HM2 by lia.
    replace (Z.pos p + 53 - 1) with (Z.pos p + 52) in HM1 by lia.
    rewrite Z.pow_add_r in HM1 by lia.
    assert (H2 : 0 < 2 ^ Z.pos p) by (apply Z.pow_pos_nonneg; lia).
    split.
    - apply Z.div_le_lower_bound; lia.
    - apply Z.div_lt_upper_bound; lia. }
  pose proof (round_nearest_even_near m1 (loc_of_shr_record mrs)) as Hm2.
  set (m2 := round_nearest_even m1 (loc_of_shr_record mrs)) in *.
  destruct m2 as [|q|q] eqn:Hq; try lia.
  destruct (Z_lt_le_dec (Z.pos q) (2 ^ 53)) as [Hlt|Hge].
  - assert (Hd : Z.pos (digits2_pos q) = 53) by (apply digits2_pos_unique; simpl; lia).
    unfold Zdigits2 in HR. rewrite Hd, (fexp_normal (53 + (E + Z.pos p))) in HR by lia.
    replace (53 + (E + Z.pos p) - 53 - (E + Z.pos p)) with 0 in HR by lia.
    cbn [shr shr_record_of_loc shr_m] in HR.
    destruct (E + Z.pos p <=? emax - prec) eqn:Hle;
      [right|left; apply Z.leb_gt in Hle; unfold emax, prec in Hle; split; [exact HR|lia]].
    apply Z.leb_le in Hle. unfold emax, prec in Hle.
    exists q, (E + Z.pos p). split; [exact HR|]. split; [exact Hd|]. split; [lia|].
    split; [now left|]. rewrite Z.sub_diag, Z.mul_1_r. rewrite <- Hm1. lia.
  - assert (Heq : Z.pos q = 2 ^ 53) by lia.
    assert (Hd : Z.pos (digits2_pos q) = 54) by (apply digits2_pos_unique; simpl; lia).
    unfold Zdigits2 in HR. rewrite Hd, (fexp_normal (54 + (E + Z.pos p))) in HR by lia.
    replace (54 + (E + Z.pos p) - 53 - (E + Z.pos p)) with 1 in HR by lia.
    unfold shr in HR.
    change (SpecFloat.iter_pos shr_1 1 (shr_record_of_loc (Z.pos q) loc_Exact))
      with (shr_1 (shr_record_of_loc (Z.pos q) loc_Exact)) in HR.
    destruct (shr_1_m (shr_record_of_loc (Z.pos q) loc_Exact)) as [Hh _]; [simpl; lia|].
    simpl shr_m in Hh at 2.
    rewrite Hh, Heq in HR. change (2 ^ 53 / 2) with (Z.pos (2 ^ 52)) in HR.
    cbv beta iota in HR.
    destruct (E + Z.pos p + 1 <=? emax - prec) eqn:Hle;
      [right|left; apply Z.leb_gt in Hle; unfold emax, prec in Hle; split; [exact HR|lia]].
    apply Z.leb_le in Hle. unfold emax, prec in Hle.
    exists (2 ^ 52)%positive, (E + Z.pos p + 1). split; [exact HR|].
    split; [reflexivity|]. split; [lia|]. split; [now right|].
    replace (E + Z.pos p + 1 - (E + Z.pos p)) with 1 by lia.
    rewrite <- Hm1. change (Z.pos (2 ^ 52) * 2 ^ 1) with (2 ^ 53). lia.
Qed.

Lemma binary_round_aux_small (M : positive) (E : Z) :
  Z.pos (digits2_pos M) = 53 -> -1074 <= E ->
  binary_round_aux prec emax false (Z.pos M) E loc_Exact =
  if E <=? 971 then S754_finite false M E else S754_infinity false.
Proof.
  intros Hd Hlo. unfold binary_round_aux, shr_fexp, Zdigits2.
  rewrite Hd, (fexp_normal (53 + E)) by lia.
  replace (53 + E - 53 - E) with 0 by lia.
  cbn [shr shr_record_of_loc shr_m round_nearest_even loc_of_shr_record].
  rewrite Hd, (fexp_normal (53 + E)) by lia.
  replace (53 + E - 53 - E) with 0 by lia.
  cbn [shr shr_record_of_loc shr_m]. reflexivity.
Qed.

Lemma pos_iter_xO (M d : positive) : Z.pos (Pos.iter xO M d) = Z.pos M * 2 ^ Z.pos d.
Proof.
  revert M. induction d as [|d IH] using Pos.peano_ind; intros M.
  - simpl. lia.
  - rewrite Pos.iter_succ, Pos2Z.inj_xO, IH, Pos2Z.inj_succ, Z.pow_succ_r by lia. lia.
Qed.

(** Values of binary64 numbers as rationals. *)

Lemma pow2_nonneg_exp (e : Z) : 0 <= e -> pow2 e = inject_Z (2 ^ e).
Proof. intros H. unfold pow2. now rewrite (proj2 (Z.leb_le 0 e) H). Qed.

Lemma inject_Z_pow2_pos (e : Z) : 0 <= e -> (0 < inject_Z (2 ^ e))%Q.
Proof.
  intros H. change 0%Q with (inject_Z 0). rewrite <- Zlt_Qlt.
  apply Z.pow_pos_nonneg; lia.
Qed.

Lemma pow2_pos (e : Z) : (0 < pow2 e)%Q.
Proof.
  unfold pow2. destruct (0 <=? e) eqn:He.
  - apply inject_Z_pow2_pos. now apply Z.leb_le.
  - apply Qinv_lt_0_compat, inject_Z_pow2_pos. apply Z.leb_gt in He. lia.
Qed.

Lemma pow2_succ (e : Z) : (pow2 (e + 1) == 2 * pow2 e)%Q.
Proof.
  unfold pow2. destruct (0 <=? e) eqn:He.
  - apply Z.leb_le in He. rewrite (proj2 (Z.leb_le 0 (e + 1))) by lia.
    rewrite Z.pow_add_r by lia. change (2 ^ 1) with 2. rewrite inject_Z_mult. ring.
  - apply Z.leb_gt in He. destruct (0 <=? e + 1) eqn:He1.
    + apply Z.leb_le in He1. assert (e = -1) by lia. subst e. reflexivity.
    + replace (- e) with (- (e + 1) + 1) by lia.
      rewrite (Z.pow_add_r 2 (- (e + 1)) 1) by lia. change (2 ^ 1) with 2.
      rewrite inject_Z_mult.
      assert (Hp : (0 < inject_Z (2 ^ (- (e + 1))))%Q) by (apply inject_Z_pow2_pos; lia).
      field. intros Hz. rewrite Hz in Hp. now apply Qlt_irrefl in Hp.
Qed.

Lemma pow2_add_nonneg (e k : Z) : 0 <= k -> (pow2 (e + k) == pow2 e * inject_Z (2 ^ k))%Q.
Proof.
  intros Hk. revert k Hk. apply natlike_ind.
  - rewrite Z.add_0_r. change (inject_Z (2 ^ 0)) with 1%Q. ring.
  - intros k Hk IH. replace (e + Z.succ k) with (e + k + 1) by lia.
    rewrite pow2_succ, IH, Z.pow_succ_r, inject_Z_mult by lia. ring.
Qed.

Lemma SF2Q_finite (m : positive) (e : Z) :
  SF2Q (S754_finite false m e) = (inject_Z (Z.pos m) * pow2 e)%Q.
Proof. reflexivity. Qed.

(** Rounding to nearest moves a value in the normal range by at most one
    part in [2^52]. *)
Lemma binary_round_aux_Q (M : positive) (E : Z) :
  53 <= Z.pos (digits2_pos M) -> -1074 <= Z.pos (digits2_pos M) + E - 53 ->
  let R := binary_round_aux prec emax false (Z.pos M) E loc_Exact in
  let V := (inject_Z (Z.pos M) * pow2 E)%Q in
  R = S754_infinity false /\ 1024 <= Z.pos (digits2_pos M) + E \/
  exists (m : positive) (e : Z),
    R = S754_finite false m e /\
    Z.pos (digits2_pos m) = 53 /\ -1074 <= e <= 971 /\
    Z.pos (digits2_pos M) + E - 53 <= e /\
    (inject_Z (2 ^ 52 - 1) * V <= inject_Z (2 ^ 52) * SF2Q R)%Q /\
    (inject_Z (2 ^ 52) * SF2Q R <= inject_Z (2 ^ 52 + 1) * V)%Q.
Proof.
  intros Hd Hlo R V.
  pose proof (pow2_pos E) as HE.
  destruct (Z.eq_dec (Z.pos (digits2_pos M)) 53) as [H53|Hne].
  - pose proof (binary_round_aux_small M E H53 ltac:(lia)) as HR. fold R in HR.
    destruct (E <=? 971) eqn:Hle; [right|left; apply Z.leb_gt in Hle; split; [exact HR|lia]].
    apply Z.leb_le in Hle.
    exists M, E. split; [exact HR|]. split; [exact H53|]. split; [lia|]. split; [lia|].
    rewrite HR, SF2Q_finite. fold V.
    assert (HV : (0 < V)%Q).
    { unfold V. apply Qmult_lt_0_compat; [|exact HE]. reflexivity. }
    split.
    + setoid_replace (inject_Z (2 ^ 52 - 1)) with (inject_Z (2 ^ 52) - 1)%Q
        using relation Qeq by reflexivity. nra.
    + setoid_replace (inject_Z (2 ^ 52 + 1)) with (inject_Z (2 ^ 52) + 1)%Q
        using relation Qeq by reflexivity. nra.
  - destruct (binary_round_aux_big M E ltac:(lia) Hlo) as [Hinf|(m & e & HR & Hm & He & Hex & Hq)];
      [left; exact Hinf|right]. fold R in HR.
    set (s := Z.pos (digits2_pos M) - 53) in *.
    pose proof (digits2_pos_bounds M) as [HM1 _].
    replace (Z.pos (digits2_pos M) - 1) with (s + 52) in HM1 by (unfold s; lia).
    rewrite Z.pow_add_r in HM1 by lia.
    assert (Hs : 0 < 2 ^ s) by (apply Z.pow_pos_nonneg; lia).
    pose proof (Z.mul_div_le (Z.pos M) (2 ^ s) Hs) as Hdiv1.
    pose proof (Z.mul_succ_div_gt (Z.pos M) (2 ^ s) Hs) as Hdiv2.
    set (A := Z.pos m * 2 ^ (e - (E + s))) in *.
    assert (HA1 : 2 ^ 52 * (A * 2 ^ s) <= (2 ^ 52 + 1) * Z.pos M) by nia.
    assert (HA2 : (2 ^ 52 - 1) * Z.pos M <= 2 ^ 52 * (A * 2 ^ s)) by nia.
    exists m, e. split; [exact HR|]. split; [exact Hm|]. split; [lia|]. split; [lia|].
    assert (HS : (SF2Q R == inject_Z (A * 2 ^ s) * pow2 E)%Q).
    { rewrite HR, SF2Q_finite. unfold A.
      replace e with (E + (s + (e - (E + s)))) at 1 by lia.
      rewrite pow2_add_nonneg by lia. rewrite Z.pow_add_r by lia.
      rewrite !inject_Z_mult. ring. }
    rewrite HS. unfold V.
    rewrite Zle_Qle in HA1, HA2. rewrite !inject_Z_mult in HA1, HA2.
    split.
    + rewrite !Qmult_assoc. apply Qmult_le_compat_r; [|now apply Qlt_le_weak].
      rewrite inject_Z_mult. exact HA2.
    + rewrite !Qmult_assoc. apply Qmult_le_compat_r; [|now apply Qlt_le_weak].
      rewrite inject_Z_mult. exact HA1.
Qed.

(** The float of a positive integer. *)
Lemma binary_normalize_Q (K : positive) :
  let R := binary_normalize prec emax (Z.pos K) 0 false in
  let V := inject_Z (Z.pos K) in
  R = S754_infinity false /\ 2 ^ 1023 <= Z.pos K \/
  exists (m : positive) (e : Z),
    R = S754_finite false m e /\
    Z.pos (digits2_pos m) = 53 /\ -52 <= e <= 971 /\
    (inject_Z (2 ^ 52 - 1) * V <= inject_Z (2 ^ 52) * SF2Q R)%Q /\
    (inject_Z (2 ^ 52) * SF2Q R <= inject_Z (2 ^ 52 + 1) * V)%Q.
Proof.
  intros R V.
  assert (HR0 : R = binary_round prec emax false K 0) by reflexivity. clearbody R.
  unfold binary_round in HR0.
  pose proof (digits2_pos_bounds K) as [HK1 HK2].
  set (d := Z.pos (digits2_pos K)) in *.
  assert (Hd : 1 <= d) by (unfold d; lia).
  rewrite (fexp_normal (d + 0)) in HR0 by lia. unfold shl_align in HR0.
  replace (d + 0 - 53 - 0) with (d - 53) in HR0 by lia.
  destruct (d - 53) as [|p|p] eqn:Hp.
  - subst R.
    destruct (binary_round_aux_Q K 0) as [[Hinf Hbig]|(m & e & HR & Hm & He & Hex & H1 & H2)];
      [fold d; lia..|left; split; [exact Hinf|]|right].
    { fold d in Hbig. assert (2 ^ 1023 <= 2 ^ (d - 1)) by (apply Z.pow_le_mono_r; lia). lia. }
    fold d in Hex. exists m, e. unfold V. rewrite Qmult_1_r in H1, H2.
    repeat split; try assumption; lia.
  - subst R.
    destruct (binary_round_aux_Q K 0) as [[Hinf Hbig]|(m & e & HR & Hm & He & Hex & H1 & H2)];
      [fold d; lia..|left; split; [exact Hinf|]|right].
    { fold d in Hbig. assert (2 ^ 1023 <= 2 ^ (d - 1)) by (apply Z.pow_le_mono_r; lia). lia. }
    fold d in Hex. exists m, e. unfold V. rewrite Qmult_1_r in H1, H2.
    repeat split; try assumption; lia.
  - right. set (mz := Pos.iter xO K p) in *.
    assert (Hmz : Z.pos mz = Z.pos K * 2 ^ Z.pos p) by apply pos_iter_xO.
    assert (Hpow : 2 ^ 53 = 2 ^ d * 2 ^ Z.pos p).
    { rewrite <- Z.pow_add_r by lia. f_equal. lia. }
    assert (Hpow' : 2 ^ 52 = 2 ^ (d - 1) * 2 ^ Z.pos p).
    { rewrite <- Z.pow_add_r by lia. f_equal. lia. }
    assert (H2p : 0 < 2 ^ Z.pos p) by (apply Z.pow_pos_nonneg; lia).
    assert (Hdz : Z.pos (digits2_pos mz) = 53).
    { apply digits2_pos_unique. change (53 - 1) with 52. rewrite Hmz, Hpow, Hpow'. nia. }
    pose proof (binary_round_aux_small mz (Z.neg p) Hdz ltac:(lia)) as HR.
    fold mz in HR0. replace (d + 0 - 53) with (Z.neg p) in HR0 by lia.
    rewrite <- HR0 in HR.
    replace (Z.neg p <=? 971) with true in HR by (symmetry; apply Z.leb_le; lia).
    exists mz, (Z.neg p). split; [exact HR|]. split; [exact Hdz|]. split; [lia|].
    assert (HS : (SF2Q R == V)%Q).
    { rewrite HR, SF2Q_finite. unfold pow2, V.
      replace (0 <=? Z.neg p) with false by (symmetry; apply Z.leb_gt; lia).
      change (- Z.neg p) with (Z.pos p). rewrite Hmz, inject_Z_mult.
      assert (Hq : (0 < inject_Z (2 ^ Z.pos p))%Q) by (apply inject_Z_pow2_pos; lia).
      field. intros Hz. rewrite Hz in Hq. now apply Qlt_irrefl in Hq. }
    rewrite HS.
    assert (HV : (0 < V)%Q) by reflexivity.
    split.
    + setoid_replace (inject_Z (2 ^ 52 - 1)) with (inject_Z (2 ^ 52) - 1)%Q
        using relation Qeq by reflexivity. nra.
    + setoid_replace (inject_Z (2 ^ 52 + 1)) with (inject_Z (2 ^ 52) + 1)%Q
        using relation Qeq by reflexivity. nra.
Qed.

Lemma valid_binary_53 (s : bool) (m : positive) (e : Z) :
  Z.pos (digits2_pos m) = 53 -> -1074 <= e <= 971 ->
  SpecFloat.valid_binary prec emax (S754_finite s m e) = true.
Proof.
  intros Hm He. unfold SpecFloat.valid_binary, bounded, canonical_mantissa.
  rewrite Hm, (fexp_normal (53 + e)) by lia.
  apply andb_true_intro. split; [apply Z.eqb_eq; lia|apply Z.leb_le; unfold emax, prec; lia].
Qed.

Lemma digits2_pos_lower (p : positive) (k : Z) :
  2 ^ (k - 1) <= Z.pos p -> k <= Z.pos (digits2_pos p).
Proof.
  intros H. pose proof (digits2_pos_bounds p) as [_ Hhi].
  destruct (Z_lt_le_dec (Z.pos (digits2_pos p)) k) as [Hlt|]; [|assumption].
  assert (2 ^ Z.pos (digits2_pos p) <= 2 ^ (k - 1)) by (apply Z.pow_le_mono_r; lia). lia.
Qed.

(** [int(x)] of a non-negative finite float is the floor of its value. *)
Lemma SF_to_Z_floor (m : positive) (e : Z) :
  let I := if 0 <=? e then Z.pos m * 2 ^ e else Z.pos m / 2 ^ (- e) in
  0 <= I /\
  (inject_Z I <= SF2Q (S754_finite false m e))%Q /\
  (SF2Q (S754_finite false m e) < inject_Z I + 1)%Q.
Proof.
  intros I. rewrite SF2Q_finite. unfold pow2, I. destruct (0 <=? e) eqn:He.
  - apply Z.leb_le in He. assert (0 < 2 ^ e) by (apply Z.pow_pos_nonneg; lia).
    split; [nia|]. rewrite inject_Z_mult. split; [apply Qle_refl|].
    rewrite <- (Qplus_0_r (inject_Z (Z.pos m) * inject_Z (2 ^ e))) at 1.
    apply Qplus_lt_r. reflexivity.
  - apply Z.leb_gt in He. assert (Hp : 0 < 2 ^ (- e)) by (apply Z.pow_pos_nonneg; lia).
    set (t := 2 ^ (- e)) in *.
    pose proof (Z.mul_div_le (Z.pos m) t Hp) as H1.
    pose proof (Z.mul_succ_div_gt (Z.pos m) t Hp) as H2.
    assert (Hq : (0 < inject_Z t)%Q) by (change 0%Q with (inject_Z 0); now rewrite <- Zlt_Qlt).
    split; [apply Z.div_pos; lia|]. split.
    + apply Qle_shift_div_l; [exact Hq|]. rewrite <- inject_Z_mult, <- Zle_Qle. lia.
    + apply Qlt_shift_div_r; [exact Hq|].
      change 1%Q with (inject_Z 1). rewrite <- inject_Z_plus, <- inject_Z_mult, <- Zlt_Qlt. lia.
Qed.

Lemma Prim2SF_1_2 : Prim2SF 1.2%float = S754_finite false 5404319552844595 (-52).
Proof. reflexivity. Qed.

(** The product [float(k) * 1.2] of line 306, truncated, for [k > 0]. *)
Lemma burnIn_product (K : positive) :
  let I := f64_to_Z (PrimFloat.mul (f64_of_Z (Z.pos K)) 1.2%float) in
  0 <= I /\ 1000 * I <= 1201 * Z.pos K.
Proof.
  intros I. unfold f64_to_Z in I.
  assert (HI : I = match SFmul prec emax (binary_normalize prec emax (Z.pos K) 0 false)
                           (S754_finite false 5404319552844595 (-52)) with
                   | S754_finite s m e =>
                       let v := if 0 <=? e then Z.pos m * 2 ^ e else Z.pos m / 2 ^ (- e) in
                       if s then - v else v
                   | _ => 0
                   end).
  { unfold I. rewrite mul_spec, Prim2SF_1_2. unfold f64_of_Z.
    destruct (binary_normalize_Q K) as [[Hinf _]|(m & e & HR & Hm & He & _)].
    - rewrite Hinf at 1. rewrite Prim2SF_SF2Prim by reflexivity. now rewrite Hinf.
    - rewrite HR at 1. rewrite Prim2SF_SF2Prim by (apply valid_binary_53; [exact Hm|lia]).
      now rewrite HR. }
  clearbody I. subst I.
  destruct (binary_normalize_Q K) as [[Hinf _]|(mx & ex & HR & Hmx & Hex & Hx1 & Hx2)].
  { rewrite Hinf. simpl. lia. }
  rewrite HR in Hx1, Hx2 |- *. unfold SFmul, xorb.
  set (my := 5404319552844595%positive).
  pose proof (digits2_pos_bounds mx) as [Hmx1 _]. rewrite Hmx in Hmx1.
  change (2 ^ (53 - 1)) with (2 ^ 52) in Hmx1.
  assert (Hd : 105 <= Z.pos (digits2_pos (mx * my))).
  { apply digits2_pos_lower. rewrite Pos2Z.inj_mul.
    change (2 ^ (105 - 1)) with (2 ^ 52 * 2 ^ 52). apply Z.mul_le_mono_nonneg; unfold my; lia. }
  destruct (binary_round_aux_Q (mx * my) (ex + -52))
    as [[Hinf _]|(m & e & HP & Hm & He & _ & Hp1 & Hp2)]; [lia..| |].
  { rewrite Hinf. lia. }
  rewrite HP in Hp1, Hp2 |- *.
  destruct (SF_to_Z_floor m e) as (H0 & Hfl & _). cbv zeta in *.
  set (I := if 0 <=? e then Z.pos m * 2 ^ e else Z.pos m / 2 ^ (- e)) in *.
  split; [exact H0|].
  set (p := SF2Q (S754_finite false m e)) in *.
  set (x := SF2Q (S754_finite false mx ex)) in *.
  assert (HV : (inject_Z (Z.pos (mx * my)) * pow2 (ex + -52)
                == x * (inject_Z (Z.pos my) / inject_Z (2 ^ 52)))%Q).
  { unfold x. rewrite SF2Q_finite, Pos2Z.inj_mul, inject_Z_mult.
    assert (Hpw : (pow2 ex == pow2 (ex + -52) * inject_Z (2 ^ 52))%Q).
    { rewrite <- pow2_add_nonneg by lia. now replace (ex + -52 + 52) with ex by lia. }
    rewrite Hpw. field. discriminate. }
  rewrite HV in Hp2. clear HV Hp1 Hx1.
  assert (Hx0 : (0 <= x)%Q).
  { unfold x. rewrite SF2Q_finite. apply Qmult_le_0_compat; [discriminate|].
    apply Qlt_le_weak, pow2_pos. }
  rewrite Zle_Qle, !inject_Z_mult.
  set (k := inject_Z (Z.pos K)) in *. set (i := inject_Z I) in *.
  assert (Hk : (0 < k)%Q) by reflexivity.
  unfold my in Hp2. clearbody p x k i.
  change (inject_Z (2 ^ 52)) with (4503599627370496 # 1)%Q in *.
  change (inject_Z (2 ^ 52 + 1)) with (4503599627370497 # 1)%Q in *.
  change (inject_Z (Z.pos 5404319552844595)) with (5404319552844595 # 1)%Q in *.
  change (inject_Z 1000) with 1000%Q. change (inject_Z 1201) with 1201%Q.
  unfold Qdiv in Hp2. change (/ (4503599627370496 # 1))%Q with (1 # 4503599627370496)%Q in Hp2.
  lra.
Qed.

(** ** Theorems: burn-in lengths *)

Lemma all_from_spec (f : Z -> bool) (k : nat) :
  forall z, all_from f k z = true -> forall i, z <= i < z + Z.of_nat k -> f i = true.
Proof.
  induction k as [|k IH]; intros z Hall i Hi; [lia|].
  simpl in Hall. apply andb_prop in Hall as [Hz Hrest].
  destruct (Z.eq_dec i z) as [->|Hne]; [exact Hz|].
  apply (IH (z + 1) Hrest). lia.
Qed.

(** On every budget up to 20000 (the default is 1000) the binary64 product
    gives the same length as exact arithmetic would. *)
Lemma burnIn_phaseI_small :
  all_from (fun n => burnIn_phaseI n =? 6 * (n / 5) / 5) 20001 0 = true.
Proof. vm_compute. reflexivity. Qed.

(** On a large budget the rounding of the product shows: exact arithmetic
    would give 5404319552844598. *)
Lemma burnIn_phaseI_rounds :
  burnIn_phaseI 22517998136852495 = 5404319552844599 /\
  6 * (22517998136852495 / 5) / 5 = 5404319552844598.
Proof. split; vm_compute; reflexivity. Qed.

Lemma burnIn_phaseI_bound (n : Z) :
  0 <= n -> 0 <= burnIn_phaseI n /\ 1000 * burnIn_phaseI n <= 1201 * (n / 5).
Proof.
  intros Hn. unfold burnIn_phaseI.
  assert (Hk : 0 <= n / 5) by (apply Z.div_pos; lia).
  destruct (n / 5) as [|K|K]; [|apply burnIn_product|lia].
  vm_compute. split; discriminate.
Qed.

(** C8. For every non-negative iteration budget [n] the burn-in lengths
    [burnIn_phaseI = int(floor(n/5) * 1.2)], with the product taken in
    binary64 as the script takes it, and
    [burnIn_phaseII = 2 * burnIn_phaseI] satisfy
    [0 <= burnIn_phaseI <= burnIn_phaseII <= n]: the burn-in phases never
    exceed the iteration budget.  Up to a budget of 20000 the first length
    is [6 * (n / 5) / 5], what exact arithmetic gives. *)
Theorem burnIn_within_budget (n : Z) :
  0 <= n ->
  burnIn_phaseII n = 2 * burnIn_phaseI n /\
  0 <= burnIn_phaseI n <= burnIn_phaseII n /\
  burnIn_phaseII n <= n /\
  ~ (n < burnIn_phaseI n \/ n < burnIn_phaseII n) /\
  (n <= 20000 -> burnIn_phaseI n = 6 * (n / 5) / 5).
Proof.
  intros Hn. destruct (burnIn_phaseI_bound n Hn) as [H0 H1].
  assert (H5 : 5 * (n / 5) <= n) by (apply Z.mul_div_le; lia).
  unfold burnIn_phaseII. repeat split; try lia.
  intros Hle. apply Z.eqb_eq.
  assert (Hk : Z.of_nat 20001 = 20001) by (vm_compute; reflexivity).
  apply (all_from_spec (fun n => burnIn_phaseI n =? 6 * (n / 5) / 5) 20001 0
           burnIn_phaseI_small). rewrite Hk. lia.
Qed.

Lemma burnIn_within_budget_witness :
  0 <= 22517998136852495 /\
  burnIn_phaseI 22517998136852495 = 5404319552844599 /\
  burnIn_phaseII 22517998136852495 <= 22517998136852495.
Proof.
  destruct (burnIn_within_budget 22517998136852495 ltac:(lia)) as (_ & _ & H & _).
  split; [lia|]. split; [vm_compute; reflexivity|exact H].
Defined.

(** ** Theorems: rescaling of the time vector *)

Section RescaleExact.
#[local] Open Scope Q_scope.














End RescaleExact.


(** ** Theorems: grouping genes by selected cluster *)

Section Grouping.
#[local] Open Scope nat_scope.

Lemma enumerate_from_snoc {A : Type} (n : nat) (l : list A) (x : A) :
  enumerate_from n (l ++ [x]) = enumerate_from n l ++ [(n + length l, x)].
Proof.
  revert n. induction l as [|y l IH]; intros n; simpl.
  - now rewrite Nat.add_0_r.
  - rewrite IH. now rewrite Nat.add_succ_comm.
Qed.

Lemma positions_from_snoc (n : nat) (c x : Z) (a : list Z) :
  positions_from n c (a ++ [x]) =
  positions_from n c a ++ (if decide (x = c) then [n + length a] else []).
Proof.
  revert n. induction a as [|y a IH]; intros n; simpl.
  - rewrite Nat.add_0_r. now destruct (decide (x = c)).
  - rewrite IH, Nat.add_succ_comm. now destruct (decide (y = c)).
Qed.

Lemma elem_of_positions_from (n : nat) (c : Z) (a : list Z) (i : nat) :
  i ∈ positions_from n c a <-> n <= i /\ a !! (i - n) = Some c.
Proof.
  revert n. induction a as [|y a IH]; intros n; simpl.
  - split; [intros H; inversion H | intros [_ H]; discriminate].
  - assert (Hrest : i ∈ positions_from (S n) c a <-> n < i /\ (y :: a) !! (i - n) = Some c).
    { rewrite IH. split.
      - intros [Hle Hl]. split; [lia|].
        replace (i - n) with (S (i - S n)) by lia. exact Hl.
      - intros [Hlt Hl]. split; [lia|].
        replace (i - n) with (S (i - S n)) in Hl by lia. exact Hl. }
    destruct (decide (y = c)) as [->|Hne].
    + rewrite elem_of_cons, Hrest. split.
      * intros [->|[Hlt Hl]]; [|split; [lia|exact Hl]].
        split; [lia|]. now rewrite Nat.sub_diag.
      * intros [Hle Hl]. destruct (decide (i = n)) as [->|Hin]; [now left|].
        right. split; [lia|exact Hl].
    + rewrite Hrest. split.
      * intros [Hlt Hl]. split; [lia|exact Hl].
      * intros [Hle Hl]. split; [|exact Hl].
        destruct (decide (i = n)) as [->|Hin]; [|lia].
        rewrite Nat.sub_diag in Hl. simpl in Hl. congruence.
Qed.

Lemma positions_from_sorted (n : nat) (c : Z) (a : list Z) :
  Sorted lt (positions_from n c a).
Proof.
  revert n. induction a as [|y a IH]; intros n; simpl; [constructor|].
  destruct (decide (y = c)); [|apply IH].
  constructor; [apply IH|].
  pose proof (elem_of_positions_from (S n) c a) as Hin.
  destruct (positions_from (S n) c a) as [|j rest]; constructor.
  assert (Hj : j ∈ j :: rest) by apply list_elem_of_here.
  apply Hin in Hj. lia.
Qed.

Lemma positions_from_NoDup (n : nat) (c : Z) (a : list Z) :
  NoDup (positions_from n c a).
Proof.
  revert n. induction a as [|y a IH]; intros n; simpl; [constructor|].
  destruct (decide (y = c)); [|apply IH].
  constructor; [|apply IH].
  rewrite elem_of_positions_from. lia.
Qed.

Lemma dict_append_lookup {A : Type} (d : gmap Z (list A)) (k c : Z) (v : A) (l : list A) :
  d !! c = held l ->
  dict_append d k v !! c = held (l ++ (if decide (k = c) then [v] else [])).
Proof.
  intros Hd. unfold dict_append.
  destruct (decide (k = c)) as [->|Hne].
  - rewrite lookup_insert_eq, lookup_total_alt, Hd.
    destruct l; simpl; reflexivity.
  - rewrite lookup_insert_ne by exact Hne. now rewrite app_nil_r.
Qed.

(** The member list the loop leaves under each cluster id: the positions
    of that id in the zipped assignment, in scan order. *)
Lemma group_labels_lookup (pairs : list (string * Z)) (c : Z) :
  (fold_left group_step (enumerate pairs) (∅, ∅)).1 !! c =
  held (positions_from 0 c pairs.*2).
Proof.
  induction pairs as [|[name k] pairs IH] using rev_ind.
  - simpl. apply lookup_empty.
  - unfold enumerate in *. rewrite enumerate_from_snoc, fold_left_app.
    rewrite fmap_app. change (snd <$> [(name, k)]) with [k].
    rewrite positions_from_snoc, length_fmap. simpl.
    apply (dict_append_lookup _ k c (length pairs) _ IH).
Qed.

Lemma total_members_dict_append {A : Type} (d : gmap Z (list A)) (k : Z) (v : A) :
  total_members (dict_append d k v) = S (total_members d).
Proof.
  unfold total_members, dict_append. rewrite lookup_total_alt.
  destruct (d !! k) as [l|] eqn:Hk; simpl.
  - rewrite <- insert_delete_eq.
    rewrite map_to_list_insert by apply lookup_delete_eq.
    rewrite <- (map_to_list_delete d k l Hk). simpl.
    rewrite length_app. simpl. lia.
  - rewrite map_to_list_insert by exact Hk. reflexivity.
Qed.

Lemma group_labels_total (pairs : list (string * Z)) :
  total_members (fold_left group_step (enumerate pairs) (∅, ∅)).1 = length pairs.
Proof.
  induction pairs as [|[name k] pairs IH] using rev_ind.
  - reflexivity.
  - unfold enumerate in *. rewrite enumerate_from_snoc, fold_left_app. simpl.
    rewrite total_members_dict_append, IH, length_app. simpl. lia.
Qed.

End Grouping.

Lemma held_Some {A : Type} (l genes : list A) :
  held l = Some genes <-> genes = l /\ l <> [].
Proof.
  destruct l; simpl; split.
  - discriminate.
  - intros [_ H]. congruence.
  - intros [= <-]. split; [reflexivity|discriminate].
  - intros [-> _]. reflexivity.
Qed.

Lemma optimal_cluster_labels_lookup (gene_names : list string) (optimal_clusters : list Z) (c : Z) :
  length gene_names = length optimal_clusters ->
  optimal_cluster_labels gene_names optimal_clusters !! c =
  held (positions_from 0 c optimal_clusters).
Proof.
  intros Hlen. unfold optimal_cluster_labels, group_genes.
  rewrite group_labels_lookup, snd_zip by lia. reflexivity.
Qed.

(** C10. For an assignment vector over the [G] genes, the grouping loop
    yields a partition of the gene indices: every index below [G] is in the
    member list of exactly one cluster id (the id the assignment gives it),
    only such indices occur, the lists of distinct ids share no index, the
    lengths add up to [G], and every list is non-empty, without repeats and
    in increasing order. *)
Theorem grouping_is_partition (gene_names : list string) (optimal_clusters : list Z) :
  length gene_names = length optimal_clusters ->
  let G := length optimal_clusters in
  let labels := optimal_cluster_labels gene_names optimal_clusters in
  (forall gene, (gene < G)%nat ->
     exists c genes,
       optimal_clusters !! gene = Some c /\ labels !! c = Some genes /\ gene ∈ genes /\
       forall c' genes', labels !! c' = Some genes' -> gene ∈ genes' -> c' = c) /\
  (forall c genes gene, labels !! c = Some genes -> gene ∈ genes -> (gene < G)%nat) /\
  (forall c1 c2 genes1 genes2 gene,
     c1 <> c2 -> labels !! c1 = Some genes1 -> labels !! c2 = Some genes2 ->
     gene ∈ genes1 -> gene ∉ genes2) /\
  total_members labels = G /\
  (forall c genes, labels !! c = Some genes ->
     genes <> [] /\ NoDup genes /\ Sorted lt genes).
Proof.
  intros Hlen G labels.
  assert (Hlook : forall c, labels !! c = held (positions_from 0 c optimal_clusters))
    by (intros c; now apply optimal_cluster_labels_lookup).
  assert (Hmem : forall c genes gene, labels !! c = Some genes -> gene ∈ genes ->
                 optimal_clusters !! gene = Some c).
  { intros c genes gene Hc Hin. rewrite Hlook in Hc.
    apply held_Some in Hc as [-> _].
    apply elem_of_positions_from in Hin as [_ Hin].
    now rewrite Nat.sub_0_r in Hin. }
  repeat split.
  - intros gene Hgene.
    destruct (lookup_lt_is_Some_2 optimal_clusters gene Hgene) as [c Hc].
    assert (Hin : gene ∈ positions_from 0 c optimal_clusters).
    { apply elem_of_positions_from. split; [lia|]. now rewrite Nat.sub_0_r. }
    exists c, (positions_from 0 c optimal_clusters). repeat split.
    + exact Hc.
    + rewrite Hlook. apply held_Some. split; [reflexivity|].
      intros Hnil. rewrite Hnil in Hin. inversion Hin.
    + exact Hin.
    + intros c' genes' Hc' Hin'. pose proof (Hmem _ _ _ Hc' Hin'). congruence.
  - intros c genes gene Hc Hin.
    apply (lookup_lt_Some optimal_clusters gene c). eapply Hmem; eassumption.
  - intros c1 c2 genes1 genes2 gene Hne H1 H2 Hin1 Hin2.
    pose proof (Hmem _ _ _ H1 Hin1). pose proof (Hmem _ _ _ H2 Hin2). congruence.
  - subst labels G. unfold optimal_cluster_labels, group_genes.
    rewrite group_labels_total, length_zip_with_r_eq by (symmetry; exact Hlen). reflexivity.
  - rewrite Hlook in H. apply held_Some in H as [-> H]. exact H.
  - rewrite Hlook in H. apply held_Some in H as [-> _]. apply positions_from_NoDup.
  - rewrite Hlook in H. apply held_Some in H as [-> _]. apply positions_from_sorted.
Qed.

Lemma grouping_is_partition_witness :
  optimal_cluster_labels ["g1"; "g2"; "g3"; "g4"] [5; 3; 5; -1] !! 5 = Some [0%nat; 2%nat] /\
  total_members (optimal_cluster_labels ["g1"; "g2"; "g3"; "g4"] [5; 3; 5; -1]) = 4%nat.
Proof.
  pose proof (grouping_is_partition ["g1"; "g2"; "g3"; "g4"] [5; 3; 5; -1] eq_refl) as H.
  cbv zeta in H. destruct H as (_ & _ & _ & Htotal & _).
  split; [vm_compute; reflexivity | exact Htotal].
Defined.

(** ** Theorems: the run monad *)

Section Monad.
Context {Σ : Foreign}.

Lemma bind_inv {A B : Type} (c : M Σ A) (k : A -> M Σ B) (r r' : rng Σ)
    (o : outcome Σ B) (tr : list (event Σ)) :
  bind c k r = (o, r', tr) ->
  (exists e, c r = (Raise e, r', tr) /\ o = Raise e) \/
  (exists a r1 tr1 tr2, c r = (Ok a, r1, tr1) /\ k a r1 = (o, r', tr2) /\ tr = tr1 ++ tr2).
Proof.
  unfold bind. destruct (c r) as [[[a|e] r1] tr1].
  - destruct (k a r1) as [[o2 r2] tr2] eqn:Hk. intros [= <- <- <-].
    right. exists a, r1, tr1, tr2. now rewrite Hk.
  - intros [= <- <- <-]. left. now exists e.
Qed.

(** The trace of a sequence starts with the trace of its first part. *)
Lemma bind_trace_prefix {A B : Type} (c : M Σ A) (k : A -> M Σ B) (r : rng Σ) :
  exists rest, trace_of (bind c k r) = trace_of (c r) ++ rest.
Proof.
  unfold bind, trace_of. destruct (c r) as [[[a|e] r1] tr1]; simpl.
  - destruct (k a r1) as [[o2 r2] tr2]. now exists tr2.
  - exists []. now rewrite app_nil_r.
Qed.

Lemma call_inv {A : Type} (ev : event Σ) (f : ext Σ A) (r r' : rng Σ)
    (o : outcome Σ A) (tr : list (event Σ)) :
  call ev f r = (o, r', tr) ->
  tr = [ev] /\
  ((exists a, f r = (inr a, r') /\ o = Ok a) \/ (exists e, f r = (inl e, r') /\ o = Raise e)).
Proof.
  unfold call. destruct (f r) as [[e|a] r1]; intros [= <- <- <-]; split; eauto.
Qed.

Lemma call_trace {A : Type} (ev : event Σ) (f : ext Σ A) (r : rng Σ) :
  trace_of (call ev f r) = [ev].
Proof. unfold call, trace_of. now destruct (f r) as [[e|a] r1]. Qed.

End Monad.

(** ** Theorems: the phases of the script, one by one *)

Section Phases.
Context {Σ : Foreign} (E : Env Σ).

(** Seed and read: the generator state the run starts in plays no part. *)
Lemma phase_design_run (a : args.namespace) (input : string) (r : rng Σ) :
  phase_design E a input r =
  match read_gene_expression_matrices E (split_on comma input) (args.true_times a)
          (args.do_not_mean_center a) (args.sigma_n2_shape a) (args.sigma_n2_rate a)
          (np_random_seed E 1234) with
  | (inl e, r1) => (Raise e, r1, [EvSeed 1234; EvRead (split_on comma input)])
  | (inr d, r1) => (Ok (rescaled d), r1, [EvSeed 1234; EvRead (split_on comma input)])
  end.
Proof.
  unfold phase_design, bind, seed, call, ret.
  now destruct (read_gene_expression_matrices _ _ _ _ _ _ _) as [[e|d] r1].
Qed.

Lemma phase_design_trace (a : args.namespace) (input : string) (r : rng Σ) :
  trace_of (phase_design E a input r) = [EvSeed 1234; EvRead (split_on comma input)].
Proof.
  rewrite phase_design_run.
  now destruct (read_gene_expression_matrices _ _ _ _ _ _ _) as [[e|d] r1].
Qed.

Lemma phase_sampling_inv (a : args.namespace) (d : Design Σ) (r r' : rng Σ)
    (o : outcome Σ (Samples Σ)) (tr : list (event Σ)) :
  phase_sampling E a d r = (o, r', tr) ->
  (exists e, gibbs_sampler E (sampler_config a d) r = (inl e, r') /\
             o = Raise e /\ tr = [EvConstruct (sampler_config a d)]) \/
  (exists GS r1, gibbs_sampler E (sampler_config a d) r = (inr GS, r1) /\
     tr = [EvConstruct (sampler_config a d); EvSample] /\
     ((exists e, GS_sampler E GS r1 = (inl e, r') /\ o = Raise e) \/
      (exists out, GS_sampler E GS r1 = (inr out, r') /\
         ((exists e, o = Raise e) \/
          (exists smp, o = Ok smp /\
             sim_mat smp = sim_mat out /\
             log_likelihoods smp = log_likelihoods out /\
             iter_num smp = iter_num out /\
             set_columns E (sampled_clusterings out) (d_gene_names d)
               = inr (sampled_clusterings smp) /\
             set_columns E (all_clusterings out) (d_gene_names d)
               = inr (all_clusterings smp)))))).
Proof.
  unfold phase_sampling, bind, call. cbv zeta.
  destruct (gibbs_sampler E (sampler_config a d) r) as [[e|GS] r1] eqn:HGS.
  { intros [= <- <- <-]. left. now exists e. }
  destruct (GS_sampler E GS r1) as [[e|out] r2] eqn:Hout.
  { intros [= <- <- <-]. right. exists GS, r1. do 2 (split; [reflexivity|]).
    left. now exists e. }
  destruct (set_columns E (sampled_clusterings out) (d_gene_names d)) as [e|sampled] eqn:Hs;
    simpl.
  { intros [= <- <- <-]. right. exists GS, r1. do 2 (split; [reflexivity|]).
    right. exists out. split; [exact Hout|]. left. now exists e. }
  destruct (set_columns E (all_clusterings out) (d_gene_names d)) as [e|all] eqn:Ha;
    simpl.
  { intros [= <- <- <-]. right. exists GS, r1. do 2 (split; [reflexivity|]).
    right. exists out. split; [exact Hout|]. left. now exists e. }
  intros [= <- <- <-]. right. exists GS, r1. do 2 (split; [reflexivity|]).
  right. exists out. split; [exact Hout|]. right. eexists. split; [reflexivity|].
  simpl. now rewrite Hs, Ha.
Qed.

(** The [if]/[elif] chain of the script and the documented table name the
    same call for every criterion, and none outside the five names. *)
Lemma phase_selection_documented (criterion : string) (smp : Samples Σ) :
  phase_selection E criterion smp =
  match documented_selection criterion (np_array E (sampled_clusterings smp))
          (sim_mat smp) (log_likelihoods smp) with
  | Some call_made => call (EvSelect call_made) (run_selection E call_made)
  | None => raise (NameError "optimal_clusters")
  end.
Proof.
  unfold phase_selection, documented_selection.
  destruct (String.eqb_spec criterion "MPEAR") as [->|?]; [reflexivity|].
  destruct (String.eqb_spec criterion "MAP") as [->|?]; [reflexivity|].
  destruct (String.eqb_spec criterion "least_squares") as [->|?]; [reflexivity|].
  destruct (String.eqb_spec criterion "h_clust_avg") as [->|?]; [reflexivity|].
  destruct (String.eqb_spec criterion "h_clust_comp") as [->|?]; reflexivity.
Qed.

Lemma documented_selection_accepts (criterion : string)
    (sampled : grid Σ) (sim : simmat Σ) (ll : logliks Σ) :
  criterion ∈ criteria <-> is_Some (documented_selection criterion sampled sim ll).
Proof.
  unfold documented_selection, criteria. rewrite !elem_of_cons, elem_of_nil.
  destruct (String.eqb_spec criterion "MAP") as [->|?]; [split; eauto|].
  destruct (String.eqb_spec criterion "MPEAR") as [->|?]; [split; eauto|].
  destruct (String.eqb_spec criterion "least_squares") as [->|?]; [split; eauto|].
  destruct (String.eqb_spec criterion "h_clust_avg") as [->|?]; [split; eauto 6|].
  destruct (String.eqb_spec criterion "h_clust_comp") as [->|?]; [split; eauto 6|].
  split; [intuition congruence | intros [x Hx]; discriminate].
Qed.

End Phases.

(** ** Theorems: the refit loop *)

Section Refit.
Context {Σ : Foreign} (E : Env Σ).
Variables (a : args.namespace) (d : Design Σ) (smp : Samples Σ).

Lemma refit_cluster_inv (acc : gmap Z (gp Σ)) (c : Z) (genes : list nat)
    (r r' : rng Σ) (o : outcome Σ (gmap Z (gp Σ))) (tr : list (event Σ)) :
  refit_cluster E a d smp acc (c, genes) r = (o, r', tr) ->
  (exists e, o = Raise e /\
     (tr = [] \/ tr = [EvBuild c genes] \/
      tr = [EvBuild c genes; EvOptimize c (args.max_iters a) (args.optimizer a)])) \/
  (exists fitted, o = Ok (<[c := fitted]> acc) /\ refit_of E a d smp genes fitted /\
     tr = [EvBuild c genes; EvOptimize c (args.max_iters a) (args.optimizer a)]).
Proof.
  unfold refit_cluster, bind, call, pure_call, raise, ret.
  destruct (np_vstack E (d_t d)) as [e|X] eqn:HX.
  { intros [= <- <- <-]. left. eexists. split; [reflexivity|]. now left. }
  destruct (rows_transposed E (d_gene_expression_matrix d) genes) as [e|Y] eqn:HY.
  { intros [= <- <- <-]. left. eexists. split; [reflexivity|]. now left. }
  destruct (dp_cluster E genes _ _ _ _ r) as [[e|fresh] r1] eqn:Hfresh.
  { intros [= <- <- <-]. left. eexists. split; [reflexivity|]. right. now left. }
  destruct (update_cluster_attributes E fresh _ _ _ _ _ _ _ _ _ _ r1)
    as [[e|fitted] r2] eqn:Hfit.
  { intros [= <- <- <-]. left. eexists. split; [reflexivity|]. right. now right. }
  intros [= <- <- <-]. right. exists fitted. split; [|split; [|reflexivity]].
  - now rewrite insert_insert_eq.
  - now exists X, Y, fresh, r, r1, r2.
Qed.

(** A completed loop: one pass per item, in the order of the items; the
    keys of the items hold the refitted objects, other keys are untouched. *)
Lemma refit_loop_ok (items : list (Z * list nat)) :
  NoDup items.*1 ->
  forall (acc gps : gmap Z (gp Σ)) (r r' : rng Σ) (tr : list (event Σ)),
  for_each (refit_cluster E a d smp) items acc r = (Ok gps, r', tr) ->
  tr = flat_map (@pass_events Σ a) items /\
  (forall c, c ∉ items.*1 -> gps !! c = acc !! c) /\
  (forall c genes, (c, genes) ∈ items ->
     exists fitted, gps !! c = Some fitted /\ refit_of E a d smp genes fitted).
Proof.
  induction items as [|[c0 genes0] items IH]; intros Hnd acc gps r r' tr; simpl.
  - intros [= <- <- <-]. split; [reflexivity|]. split; [reflexivity|].
    intros c genes Hin. inversion Hin.
  - intros Hrun. apply bind_inv in Hrun as [(e & _ & [=])|(acc' & r1 & tr1 & tr2 & H1 & H2 & ->)].
    apply refit_cluster_inv in H1 as [(e & [=] & _)|(fitted & [= ->] & Hfit & ->)].
    apply NoDup_cons in Hnd as [Hfresh Hnd].
    destruct (IH Hnd _ _ _ _ _ H2) as (-> & Hout & Hin).
    split; [reflexivity|]. split.
    + intros c Hc. apply not_elem_of_cons in Hc as [Hne Hc].
      rewrite (Hout c Hc). now apply lookup_insert_ne.
    + intros c genes Hcg. apply elem_of_cons in Hcg as [[= -> ->]|Hcg].
      * exists fitted. split; [|exact Hfit].
        rewrite (Hout c0 Hfresh). apply lookup_insert_eq.
      * now apply Hin.
Qed.

(** Whether it completes or not, the loop leaves refit events only. *)
Lemma refit_loop_stage (items : list (Z * list nat)) (acc : gmap Z (gp Σ)) (r : rng Σ) :
  Forall (fun ev => stage ev = 6%nat) (trace_of (for_each (refit_cluster E a d smp) items acc r)).
Proof.
  revert acc r. induction items as [|[c0 genes0] items IH]; intros acc r; simpl.
  - constructor.
  - destruct (bind _ _ r) as [[o r'] tr] eqn:Hrun. unfold trace_of. simpl.
    apply bind_inv in Hrun as [(e & H1 & _)|(acc' & r1 & tr1 & tr2 & H1 & H2 & ->)].
    + apply refit_cluster_inv in H1 as [(e' & _ & [->|[->| ->]])|(fitted & [=] & _)];
        repeat constructor.
    + apply Forall_app. split.
      * apply refit_cluster_inv in H1 as [(e' & _ & [->|[->| ->]])|(fitted & _ & _ & ->)];
          repeat constructor.
      * specialize (IH acc' r1). rewrite H2 in IH. exact IH.
Qed.

Lemma pass_events_builds (c : Z) (items : list (Z * list nat)) :
  builds_of c (flat_map (@pass_events Σ a) items) =
  length (List.filter (fun item => Z.eqb item.1 c) items) /\
  optimizations_of c (flat_map (@pass_events Σ a) items) =
  length (List.filter (fun item => Z.eqb item.1 c) items).
Proof.
  unfold builds_of, optimizations_of.
  induction items as [|[c0 genes0] items [IHb IHo]]; [now split|].
  simpl. destruct (Z.eqb c0 c); simpl; now rewrite IHb, IHo.
Qed.

Lemma NoDup_keys_count (c : Z) (items : list (Z * list nat)) :
  NoDup items.*1 ->
  length (List.filter (fun item => Z.eqb item.1 c) items) =
  if bool_decide (c ∈ items.*1) then 1%nat else 0%nat.
Proof.
  induction items as [|[c0 genes0] items IH]; intros Hnd; [reflexivity|].
  rewrite fmap_cons in Hnd |- *. apply NoDup_cons in Hnd as [Hfresh Hnd].
  specialize (IH Hnd). cbn [List.filter fst].
  destruct (Z.eqb_spec c0 c) as [->|Hne]; cbn [length].
  - rewrite IH. rewrite (bool_decide_eq_false_2 _ Hfresh).
    now rewrite bool_decide_eq_true_2 by apply list_elem_of_here.
  - rewrite IH. destruct (bool_decide (c ∈ items.*1)) eqn:Hc.
    + apply bool_decide_eq_true_1 in Hc.
      now rewrite bool_decide_eq_true_2 by (now apply list_elem_of_further).
    + apply bool_decide_eq_false_1 in Hc.
      rewrite bool_decide_eq_false_2; [reflexivity|].
      intros Hin. apply elem_of_cons in Hin as [?|?]; [congruence|contradiction].
Qed.

End Refit.

Lemma positions_from_nonempty (c : Z) (a : list Z) :
  positions_from 0 c a <> [] <-> c ∈ a.
Proof.
  split.
  - intros Hne. destruct (positions_from 0 c a) as [|i rest] eqn:Hpos; [congruence|].
    assert (Hi : i ∈ positions_from 0 c a) by (rewrite Hpos; apply list_elem_of_here).
    apply elem_of_positions_from in Hi as [_ Hi]. eapply list_elem_of_lookup_2, Hi.
  - intros Hin Hnil. apply list_elem_of_lookup_1 in Hin as [i Hi].
    assert (Hpos : i ∈ positions_from 0 c a).
    { apply elem_of_positions_from. split; [lia|]. now rewrite Nat.sub_0_r. }
    rewrite Hnil in Hpos. inversion Hpos.
Qed.

Lemma optimal_cluster_labels_dom (gene_names : list string) (optimal_clusters : list Z) (c : Z) :
  length gene_names = length optimal_clusters ->
  is_Some (optimal_cluster_labels gene_names optimal_clusters !! c) <-> c ∈ optimal_clusters.
Proof.
  intros Hlen. rewrite optimal_cluster_labels_lookup by exact Hlen.
  rewrite <- positions_from_nonempty.
  destruct (positions_from 0 c optimal_clusters); simpl; split.
  - intros [x [=]].
  - congruence.
  - discriminate.
  - eauto.
Qed.

Lemma iteritems_keys {Σ : Foreign} (E : Env Σ) (labels : gmap Z (list nat)) :
  NoDup (iteritems E labels).*1 /\
  (forall c genes, (c, genes) ∈ iteritems E labels <-> labels !! c = Some genes) /\
  (forall c, c ∈ (iteritems E labels).*1 <-> is_Some (labels !! c)).
Proof.
  pose proof (iteritems_once E labels) as Hperm.
  assert (Hin : forall c genes, (c, genes) ∈ iteritems E labels <-> labels !! c = Some genes).
  { intros c genes. rewrite Hperm. apply elem_of_map_to_list. }
  split; [rewrite Hperm; apply NoDup_fst_map_to_list|]. split; [exact Hin|].
  intros c. rewrite list_elem_of_fmap. split.
  - intros ([c' genes] & -> & Hcg). apply Hin in Hcg. eauto.
  - intros [genes Hcg]. exists (c, genes). split; [reflexivity|]. now apply Hin.
Qed.

(** C6. After the selection every cluster of the selected partition is
    refit exactly once: the refit loop builds one fresh cluster object per
    cluster id of the assignment, from the members the grouping gave that
    id, optimizes it once with the run's [max_iters] and [optimizer], and
    reports the optimized objects keyed by cluster id.  The passes come in
    the order in which the interpreter visits the dictionary, whatever
    that order is. *)
Theorem refit_every_cluster_once {Σ : Foreign} (E : Env Σ) (a : args.namespace)
    (d : Design Σ) (smp : Samples Σ) (gene_names : list string)
    (optimal_clusters : list Z) (r r' : rng Σ)
    (optimal_clusters_GP : gmap Z (gp Σ)) (tr : list (event Σ)) :
  length gene_names = length optimal_clusters ->
  phase_refit E a d smp (optimal_cluster_labels gene_names optimal_clusters) r
    = (Ok optimal_clusters_GP, r', tr) ->
  (forall c, c ∈ optimal_clusters <-> is_Some (optimal_clusters_GP !! c)) /\
  (forall c, c ∈ optimal_clusters -> builds_of c tr = 1%nat /\ optimizations_of c tr = 1%nat) /\
  (forall c, c ∉ optimal_clusters -> builds_of c tr = 0%nat /\ optimizations_of c tr = 0%nat) /\
  (exists items,
     items ≡ₚ map_to_list (optimal_cluster_labels gene_names optimal_clusters) /\
     tr = flat_map (fun item => [EvBuild item.1 item.2;
                                 EvOptimize item.1 (args.max_iters a) (args.optimizer a)])
            items) /\
  (forall c fitted, optimal_clusters_GP !! c = Some fitted ->
     exists genes,
       optimal_cluster_labels gene_names optimal_clusters !! c = Some genes /\
       refit_of E a d smp genes fitted).
Proof.
  intros Hlen Hrun. unfold phase_refit in Hrun.
  set (labels := optimal_cluster_labels gene_names optimal_clusters) in *.
  destruct (iteritems_keys E labels) as (Hnd & Hitem & Hdom).
  destruct (refit_loop_ok E a d smp (iteritems E labels) Hnd _ _ _ _ _ Hrun)
    as (Htr & Hout & Hin).
  assert (Hkeys : forall c, c ∈ (iteritems E labels).*1 <-> c ∈ optimal_clusters).
  { intros c. rewrite <- (optimal_cluster_labels_dom gene_names optimal_clusters c Hlen).
    apply Hdom. }
  assert (Hcount : forall c, builds_of c tr = (if bool_decide (c ∈ (iteritems E labels).*1)
                                                then 1 else 0)%nat /\
                             optimizations_of c tr = (if bool_decide (c ∈ (iteritems E labels).*1)
                                                then 1 else 0)%nat).
  { intros c. rewrite Htr. destruct (pass_events_builds (Σ := Σ) a c (iteritems E labels)) as [-> ->].
    now rewrite NoDup_keys_count by exact Hnd. }
  split; [|split; [|split; [|split]]].
  - intros c. rewrite <- Hkeys. split.
    + intros Hc. apply list_elem_of_fmap in Hc as ([c' genes] & -> & Hcg).
      destruct (Hin _ _ Hcg) as (fitted & Hf & _). eauto.
    + intros [fitted Hf]. destruct (decide (c ∈ (iteritems E labels).*1)) as [|Hc]; [assumption|].
      rewrite (Hout c Hc), lookup_empty in Hf. discriminate.
  - intros c Hc. apply Hkeys in Hc. destruct (Hcount c) as [-> ->].
    now rewrite bool_decide_eq_true_2 by exact Hc.
  - intros c Hc. rewrite <- Hkeys in Hc. destruct (Hcount c) as [-> ->].
    now rewrite bool_decide_eq_false_2 by exact Hc.
  - exists (iteritems E labels). split; [apply iteritems_once|exact Htr].
  - intros c fitted Hf.
    destruct (decide (c ∈ (iteritems E labels).*1)) as [Hc|Hc].
    + apply list_elem_of_fmap in Hc as ([c' genes] & -> & Hcg).
      destruct (Hin _ _ Hcg) as (fitted' & Hf' & Hrefit).
      exists genes. split; [now apply Hitem|]. simpl in *. congruence.
    + rewrite (Hout c Hc), lookup_empty in Hf. discriminate.
Qed.

(** ** Theorems: reporting and plotting *)

Section Reporting.
Context {Σ : Foreign} (E : Env Σ).

Lemma phase_report_inv (d : Design Σ) (smp : Samples Σ) (names : gmap Z (list string))
    (output_path_prefix : string) (r r' : rng Σ) (o : outcome Σ unit) (tr : list (event Σ)) :
  phase_report E d smp names output_path_prefix r = (o, r', tr) ->
  tr `prefix_of` report_events output_path_prefix /\
  (forall x, o = Ok x -> tr = report_events output_path_prefix).
Proof.
  unfold phase_report, bind, call, report_events.
  destruct (save_posterior_similarity_matrix E _ _ _ r) as [[e|[]] r1].
  { intros [= <- <- <-]. split; [now eexists|discriminate]. }
  destruct (save_clusterings E _ _ r1) as [[e|[]] r2].
  { intros [= <- <- <-]. split; [now eexists|discriminate]. }
  destruct (save_log_likelihoods E _ _ r2) as [[e|[]] r3].
  { intros [= <- <- <-]. split; [now eexists|discriminate]. }
  destruct (save_cluster_membership_information E _ _ r3) as [[e|[]] r4];
    intros [= <- <- <-]; (split; [now exists []|]); [discriminate|reflexivity].
Qed.

Lemma phase_plot_inv (a : args.namespace) (d : Design Σ) (smp : Samples Σ)
    (gps : gmap Z (gp Σ)) (output_path_prefix : string) (r r' : rng Σ)
    (o : outcome Σ unit) (tr : list (event Σ)) :
  phase_plot E a d smp gps output_path_prefix r = (o, r', tr) ->
  tr `prefix_of` plot_events a output_path_prefix /\
  (forall x, o = Ok x -> tr = plot_events a output_path_prefix).
Proof.
  unfold phase_plot, plot_events. destruct (args.plot a).
  2: { intros [= <- <- <-]. split; [now exists []|reflexivity]. }
  unfold bind, call.
  destruct (plot_similarity_matrix E _ _ _ r) as [[e|key] r1].
  { intros [= <- <- <-]. split; [now eexists|discriminate]. }
  destruct (names_at (d_gene_names d) key) as [key_names|]; simpl.
  2: { intros [= <- <- <-]. split; [now eexists|discriminate]. }
  destruct (save_posterior_similarity_matrix_key E _ _ r1) as [[e|[]] r2].
  { intros [= <- <- <-]. split; [now eexists|discriminate]. }
  destruct (plot_cluster_sizes_over_iterations E _ _ _ _ _ _ r2) as [[e|[]] r3].
  { intros [= <- <- <-]. split; [now eexists|discriminate]. }
  destruct (plot_cluster_gene_expression E _ _ _ _ _ _ _ _ r3) as [[e|[]] r4];
    intros [= <- <- <-]; (split; [now exists []|]); [discriminate|reflexivity].
Qed.

End Reporting.

(** ** Theorems: traces in schedule order *)

Section Order.
Context {Σ : Foreign}.
Implicit Types tr : list (event Σ).

Lemma within_nil (lo hi : nat) : within (Σ := Σ) lo hi [].
Proof. split; constructor. Qed.

Lemma within_weaken (lo hi lo' hi' : nat) tr :
  (lo' <= lo)%nat -> (hi <= hi')%nat -> within lo hi tr -> within lo' hi' tr.
Proof.
  intros Hlo Hhi [Hs Hb]. split; [exact Hs|].
  eapply Forall_impl; [exact Hb|]. simpl. intros ev ?. lia.
Qed.

Lemma within_app (lo mid mid' hi : nat) tr1 tr2 :
  (mid < mid')%nat -> (lo <= mid')%nat -> (mid <= hi)%nat ->
  within lo mid tr1 -> within mid' hi tr2 -> within lo hi (tr1 ++ tr2).
Proof.
  intros Hmid Hlo Hhi [Hs1 Hb1] [Hs2 Hb2]. split.
  - induction Hs1 as [|ev tr1 Hs1 IH Hall]; simpl; [exact Hs2|].
    apply Forall_cons in Hb1 as [Hev Hb1].
    constructor; [now apply IH|].
    apply Forall_app. split; [exact Hall|].
    eapply Forall_impl; [exact Hb2|]. simpl. intros ev2 ?. left. lia.
  - apply Forall_app. split; (eapply Forall_impl; [eassumption|]); simpl; intros ev ?; lia.
Qed.

Lemma within_stage (lo hi : nat) tr (ev : event Σ) :
  within lo hi tr -> ev ∈ tr -> (lo <= stage ev <= hi)%nat.
Proof. intros [_ Hb] Hin. rewrite Forall_forall in Hb. now apply Hb. Qed.

Lemma within_prefix (lo hi : nat) tr tr' :
  tr `prefix_of` tr' -> within lo hi tr' -> within lo hi tr.
Proof.
  intros [rest ->] [Hs Hb]. apply Forall_app in Hb as [Hb _]. split; [|exact Hb].
  induction tr as [|ev tr IH]; [constructor|].
  simpl in Hs. apply StronglySorted_inv in Hs as [Hs Hall].
  apply Forall_cons in Hb as [_ Hb].
  constructor; [now apply IH|]. now apply Forall_app in Hall as [Hall _].
Qed.

Lemma within_refit tr : Forall (fun ev => stage ev = 6%nat) tr -> within 6 6 tr.
Proof.
  intros Hall. split.
  - induction Hall as [|ev tr Hev Hall IH]; constructor; [exact IH|].
    eapply Forall_impl; [exact Hall|]. simpl. intros ev2 ?. right. now split.
  - eapply Forall_impl; [exact Hall|]. simpl. intros ev ?. lia.
Qed.

Lemma within_report (output_path_prefix : string) :
  within (Σ := Σ) 7 10 (report_events output_path_prefix).
Proof.
  split; unfold report_events; repeat constructor; simpl; unfold follows; simpl; lia.
Qed.

Lemma within_plot (a : args.namespace) (output_path_prefix : string) :
  within (Σ := Σ) 11 14 (plot_events a output_path_prefix).
Proof.
  unfold plot_events. destruct (args.plot a); [|apply within_nil].
  split; repeat constructor; simpl; unfold follows; simpl; lia.
Qed.

(** In an ordered trace an event of a stage outside the refit loop occurs
    at most once. *)
Lemma in_order_at_most_once (p : event Σ -> bool) (k : nat) tr :
  k <> 6%nat -> (forall ev, p ev = true -> stage ev = k) ->
  StronglySorted follows tr -> (length (List.filter p tr) <= 1)%nat.
Proof.
  intros Hk Hp Hs. induction Hs as [|ev tr Hs IH Hall]; simpl; [lia|].
  destruct (p ev) eqn:Hev; [|exact IH]. simpl.
  assert (Hnone : List.filter p tr = []).
  { clear IH Hs. induction tr as [|ev2 tr IH2]; [reflexivity|].
    apply Forall_cons in Hall as [Hf Hall]. simpl.
    destruct (p ev2) eqn:Hev2; [|now apply IH2].
    apply Hp in Hev, Hev2. unfold follows in Hf. lia. }
  rewrite Hnone. simpl. lia.
Qed.

End Order.

(** ** Theorems: how a run ends *)

Section Ending.
Context {Σ : Foreign} (E : Env Σ) (a : args.namespace) (input output_path_prefix : string).

(** A run ends in the first phase that raises, or completes. *)
Lemma main_inv (r r' : rng Σ) (o : outcome Σ (Report Σ)) (tr : list (event Σ)) :
  main E a input output_path_prefix r = (o, r', tr) ->
  (exists e, phase_design E a input r = (Raise e, r', tr) /\ o = Raise e) \/
  (exists d r1 tr1 e tr2,
     through_design E a input r d r1 tr1 /\
     phase_sampling E a d r1 = (Raise e, r', tr2) /\ tr = tr1 ++ tr2 /\ o = Raise e) \/
  (exists d smp r2 tr2 e tr3,
     through_sampling E a input r d smp r2 tr2 /\
     phase_selection E (args.criterion a) smp r2 = (Raise e, r', tr3) /\
     tr = tr2 ++ tr3 /\ o = Raise e) \/
  (exists d smp opt r3 tr3 e tr4,
     through_selection E a input r d smp opt r3 tr3 /\
     phase_refit E a d smp (optimal_cluster_labels (d_gene_names d) opt) r3
       = (Raise e, r', tr4) /\
     tr = tr3 ++ tr4 /\ o = Raise e) \/
  (exists d smp opt gps r4 tr4 e tr5,
     through_refit E a input r d smp opt gps r4 tr4 /\
     phase_report E d smp (optimal_cluster_labels_original_gene_names (d_gene_names d) opt)
       output_path_prefix r4 = (Raise e, r', tr5) /\
     tr = tr4 ++ tr5 /\ o = Raise e) \/
  (exists d smp opt gps r5 tr5 e tr6,
     through_report E a input r output_path_prefix d smp opt gps r5 tr5 /\
     phase_plot E a d smp gps output_path_prefix r5 = (Raise e, r', tr6) /\
     tr = tr5 ++ tr6 /\ o = Raise e) \/
  (exists d smp opt gps r5 tr5 tr6,
     through_report E a input r output_path_prefix d smp opt gps r5 tr5 /\
     phase_plot E a d smp gps output_path_prefix r5 = (Ok tt, r', tr6) /\
     tr = tr5 ++ tr6 /\
     o = Ok {| r_design := d; r_samples := smp; r_optimal_clusters := opt;
               r_optimal_cluster_labels := optimal_cluster_labels (d_gene_names d) opt;
               r_optimal_cluster_labels_original_gene_names :=
                 optimal_cluster_labels_original_gene_names (d_gene_names d) opt;
               r_optimal_clusters_GP := gps |}).
Proof.
  unfold main. intros Hrun.
  apply bind_inv in Hrun as [(e & H1 & ->)|(d & r1 & tr1 & rest1 & H1 & Hrun & ->)].
  { left. eauto. }
  right.
  apply bind_inv in Hrun as [(e & H2 & ->)|(smp & r2 & tr2 & rest2 & H2 & Hrun & ->)].
  { left. exists d, r1, tr1, e, rest1. eauto. }
  right.
  assert (T2 : through_sampling E a input r d smp r2 (tr1 ++ tr2))
    by (exists r1, tr1, tr2; eauto).
  apply bind_inv in Hrun as [(e & H3 & ->)|(opt & r3 & tr3 & rest3 & H3 & Hrun & ->)].
  { left. exists d, smp, r2, (tr1 ++ tr2), e, rest2. ends_here T2 H3. }
  right.
  assert (T3 : through_selection E a input r d smp opt r3 ((tr1 ++ tr2) ++ tr3))
    by (exists r2, (tr1 ++ tr2), tr3; eauto).
  cbv zeta in Hrun.
  change (group_genes (d_gene_names d) opt).1
    with (optimal_cluster_labels (d_gene_names d) opt) in Hrun.
  change (group_genes (d_gene_names d) opt).2
    with (optimal_cluster_labels_original_gene_names (d_gene_names d) opt) in Hrun.
  apply bind_inv in Hrun as [(e & H4 & ->)|(gps & r4 & tr4 & rest4 & H4 & Hrun & ->)].
  { left. exists d, smp, opt, r3, ((tr1 ++ tr2) ++ tr3), e, rest3. ends_here T3 H4. }
  right.
  assert (T4 : through_refit E a input r d smp opt gps r4 (((tr1 ++ tr2) ++ tr3) ++ tr4))
    by (exists r3, ((tr1 ++ tr2) ++ tr3), tr4; eauto).
  apply bind_inv in Hrun as [(e & H5 & ->)|([] & r5 & tr5 & rest5 & H5 & Hrun & ->)].
  { left. exists d, smp, opt, gps, r4, (((tr1 ++ tr2) ++ tr3) ++ tr4), e, rest4.
    ends_here T4 H5. }
  right.
  assert (T5 : through_report E a input r output_path_prefix d smp opt gps r5
                 ((((tr1 ++ tr2) ++ tr3) ++ tr4) ++ tr5))
    by (exists r4, (((tr1 ++ tr2) ++ tr3) ++ tr4), tr5; eauto).
  apply bind_inv in Hrun as [(e & H6 & ->)|([] & r6 & tr6 & rest6 & H6 & Hrun & ->)].
  { left. exists d, smp, opt, gps, r5, ((((tr1 ++ tr2) ++ tr3) ++ tr4) ++ tr5), e, rest5.
    ends_here T5 H6. }
  right. injection Hrun as <- <- <-.
  exists d, smp, opt, gps, r5, ((((tr1 ++ tr2) ++ tr3) ++ tr4) ++ tr5), tr6.
  rewrite app_nil_r. ends_here T5 H6.
Qed.

Lemma through_design_inv (r r' : rng Σ) (d : Design Σ) (tr : list (event Σ)) :
  through_design E a input r d r' tr ->
  tr = [EvSeed 1234; EvRead (split_on comma input)] /\
  exists d0,
    read_gene_expression_matrices E (split_on comma input) (args.true_times a)
      (args.do_not_mean_center a) (args.sigma_n2_shape a) (args.sigma_n2_rate a)
      (np_random_seed E 1234) = (inr d0, r') /\
    d = rescaled d0.
Proof.
  unfold through_design. rewrite phase_design_run.
  destruct (read_gene_expression_matrices _ _ _ _ _ _ _) as [[e|d0] r1];
    intros [= <- <- <-]. eauto.
Qed.

Lemma through_sampling_inv (r r' : rng Σ) (d : Design Σ) (smp : Samples Σ)
    (tr : list (event Σ)) :
  through_sampling E a input r d smp r' tr ->
  tr = [EvSeed 1234; EvRead (split_on comma input);
        EvConstruct (sampler_config a d); EvSample] /\
  exists r1 GS r2 out,
    gibbs_sampler E (sampler_config a d) r1 = (inr GS, r2) /\
    GS_sampler E GS r2 = (inr out, r') /\
    sim_mat smp = sim_mat out /\
    log_likelihoods smp = log_likelihoods out /\
    iter_num smp = iter_num out.
Proof.
  intros (r1 & tr1 & tr2 & H1 & H2 & ->).
  apply through_design_inv in H1 as [-> _].
  apply phase_sampling_inv in H2
    as [(e & _ & [=] & _)|(GS & r2 & HGS & -> &
          [(e & _ & [=])|(out & Hout & [(e & [=])|(smp' & [= <-] & Hs & Hl & Hi & _)])])].
  split; [reflexivity|]. exists r1, GS, r2, out. eauto.
Qed.

Lemma through_selection_inv (r r' : rng Σ) (d : Design Σ) (smp : Samples Σ)
    (opt : list Z) (tr : list (event Σ)) :
  through_selection E a input r d smp opt r' tr ->
  exists call_made r2,
    documented_selection (args.criterion a) (np_array E (sampled_clusterings smp))
      (sim_mat smp) (log_likelihoods smp) = Some call_made /\
    run_selection E call_made r2 = (inr opt, r') /\
    tr = [EvSeed 1234; EvRead (split_on comma input);
          EvConstruct (sampler_config a d); EvSample; EvSelect call_made].
Proof.
  intros (r2 & tr2 & tr3 & H2 & H3 & ->).
  apply through_sampling_inv in H2 as [-> _].
  rewrite phase_selection_documented in H3.
  destruct (documented_selection _ _ _ _) as [call_made|]; [|discriminate].
  apply call_inv in H3 as [-> [(opt' & Hsel & [= <-])|(e & _ & [=])]].
  exists call_made, r2. eauto.
Qed.

Lemma through_refit_inv (r r' : rng Σ) (d : Design Σ) (smp : Samples Σ)
    (opt : list Z) (gps : gmap Z (gp Σ)) (tr : list (event Σ)) :
  through_refit E a input r d smp opt gps r' tr ->
  exists call_made,
    documented_selection (args.criterion a) (np_array E (sampled_clusterings smp))
      (sim_mat smp) (log_likelihoods smp) = Some call_made /\
    tr = [EvSeed 1234; EvRead (split_on comma input);
          EvConstruct (sampler_config a d); EvSample; EvSelect call_made]
         ++ refit_events E a (optimal_cluster_labels (d_gene_names d) opt).
Proof.
  intros (r3 & tr3 & tr4 & H3 & H4 & ->).
  apply through_selection_inv in H3 as (call_made & r2 & Hdoc & _ & ->).
  exists call_made. split; [exact Hdoc|]. f_equal.
  unfold phase_refit in H4.
  destruct (iteritems_keys E (optimal_cluster_labels (d_gene_names d) opt)) as (Hnd & _).
  now destruct (refit_loop_ok E a d smp _ Hnd _ _ _ _ _ H4) as [-> _].
Qed.

Lemma through_report_inv (r r' : rng Σ) (d : Design Σ) (smp : Samples Σ)
    (opt : list Z) (gps : gmap Z (gp Σ)) (tr : list (event Σ)) :
  through_report E a input r output_path_prefix d smp opt gps r' tr ->
  exists call_made,
    documented_selection (args.criterion a) (np_array E (sampled_clusterings smp))
      (sim_mat smp) (log_likelihoods smp) = Some call_made /\
    tr = [EvSeed 1234; EvRead (split_on comma input);
          EvConstruct (sampler_config a d); EvSample; EvSelect call_made]
         ++ refit_events E a (optimal_cluster_labels (d_gene_names d) opt)
         ++ report_events output_path_prefix.
Proof.
  intros (r4 & tr4 & tr5 & H4 & H5 & ->).
  apply through_refit_inv in H4 as (call_made & Hdoc & ->).
  exists call_made. split; [exact Hdoc|].
  apply phase_report_inv in H5 as [_ H5]. rewrite (H5 tt eq_refl).
  now rewrite <- app_assoc.
Qed.

End Ending.

(** ** Theorems: the stages a phase and a run can leave events of *)

Section Stages.
Context {Σ : Foreign} (E : Env Σ) (a : args.namespace) (input output_path_prefix : string).

Lemma within_phase_sampling (d : Design Σ) (r r' : rng Σ) (o : outcome Σ (Samples Σ))
    (tr : list (event Σ)) :
  phase_sampling E a d r = (o, r', tr) -> within 3 4 tr.
Proof.
  intros H. apply phase_sampling_inv in H as [(e & _ & _ & ->)|(GS & r1 & _ & -> & _)];
    (split; repeat constructor; simpl; unfold follows; simpl; lia).
Qed.

Lemma within_phase_selection (criterion : string) (smp : Samples Σ) (r r' : rng Σ)
    (o : outcome Σ (list Z)) (tr : list (event Σ)) :
  phase_selection E criterion smp r = (o, r', tr) -> within 5 5 tr.
Proof.
  rewrite phase_selection_documented.
  destruct (documented_selection _ _ _ _) as [call_made|].
  - intros H. apply call_inv in H as [-> _]. split; repeat constructor.
  - intros [= <- <- <-]. apply within_nil.
Qed.

Lemma within_phase_refit (d : Design Σ) (smp : Samples Σ) (labels : gmap Z (list nat))
    (r r' : rng Σ) (o : outcome Σ (gmap Z (gp Σ))) (tr : list (event Σ)) :
  phase_refit E a d smp labels r = (o, r', tr) -> within 6 6 tr.
Proof.
  intros H. apply within_refit.
  pose proof (refit_loop_stage E a d smp (iteritems E labels) ∅ r) as Hall.
  unfold phase_refit in H. now rewrite H in Hall.
Qed.

Lemma within_phase_report (d : Design Σ) (smp : Samples Σ) (names : gmap Z (list string))
    (r r' : rng Σ) (o : outcome Σ unit) (tr : list (event Σ)) :
  phase_report E d smp names output_path_prefix r = (o, r', tr) -> within 7 10 tr.
Proof.
  intros H. apply phase_report_inv in H as [Hpre _].
  eapply within_prefix; [exact Hpre|apply within_report].
Qed.

Lemma within_phase_plot (d : Design Σ) (smp : Samples Σ) (gps : gmap Z (gp Σ))
    (r r' : rng Σ) (o : outcome Σ unit) (tr : list (event Σ)) :
  phase_plot E a d smp gps output_path_prefix r = (o, r', tr) -> within 11 14 tr.
Proof.
  intros H. apply phase_plot_inv in H as [Hpre _].
  eapply within_prefix; [exact Hpre|apply within_plot].
Qed.

Lemma within_through_design (r r' : rng Σ) (d : Design Σ) (tr : list (event Σ)) :
  through_design E a input r d r' tr -> within 1 2 tr.
Proof.
  intros H. apply through_design_inv in H as [-> _].
  split; repeat constructor; simpl; unfold follows; simpl; lia.
Qed.

Lemma within_through_sampling (r r' : rng Σ) (d : Design Σ) (smp : Samples Σ)
    (tr : list (event Σ)) :
  through_sampling E a input r d smp r' tr -> within 1 4 tr.
Proof.
  intros (r1 & tr1 & tr2 & H1 & H2 & ->).
  eapply (within_app 1 2 3 4); [lia..| |].
  - eapply within_through_design, H1.
  - eapply within_phase_sampling, H2.
Qed.

Lemma within_through_selection (r r' : rng Σ) (d : Design Σ) (smp : Samples Σ)
    (opt : list Z) (tr : list (event Σ)) :
  through_selection E a input r d smp opt r' tr -> within 1 5 tr.
Proof.
  intros (r2 & tr2 & tr3 & H2 & H3 & ->).
  eapply (within_app 1 4 5 5); [lia..| |].
  - eapply within_through_sampling, H2.
  - eapply within_phase_selection, H3.
Qed.

Lemma within_through_refit (r r' : rng Σ) (d : Design Σ) (smp : Samples Σ)
    (opt : list Z) (gps : gmap Z (gp Σ)) (tr : list (event Σ)) :
  through_refit E a input r d smp opt gps r' tr -> within 1 6 tr.
Proof.
  intros (r3 & tr3 & tr4 & H3 & H4 & ->).
  eapply (within_app 1 5 6 6); [lia..| |].
  - eapply within_through_selection, H3.
  - eapply within_phase_refit, H4.
Qed.

Lemma within_through_report (r r' : rng Σ) (d : Design Σ) (smp : Samples Σ)
    (opt : list Z) (gps : gmap Z (gp Σ)) (tr : list (event Σ)) :
  through_report E a input r output_path_prefix d smp opt gps r' tr -> within 1 10 tr.
Proof.
  intros (r4 & tr4 & tr5 & H4 & H5 & ->).
  eapply (within_app 1 6 7 10); [lia..| |].
  - eapply within_through_refit, H4.
  - eapply within_phase_report, H5.
Qed.

(** The trace of a run and the last stage it can have reached, by the
    phase the run ended in. *)
Lemma main_within (r r' : rng Σ) (o : outcome Σ (Report Σ)) (tr : list (event Σ)) :
  main E a input output_path_prefix r = (o, r', tr) -> within 1 14 tr.
Proof.
  intros H. apply main_inv in H
    as [(e & H & _)|[(d & r1 & tr1 & e & tr2 & T & H & -> & _)|
       [(d & smp & r2 & tr2 & e & tr3 & T & H & -> & _)|
       [(d & smp & opt & r3 & tr3 & e & tr4 & T & H & -> & _)|
       [(d & smp & opt & gps & r4 & tr4 & e & tr5 & T & H & -> & _)|
       [(d & smp & opt & gps & r5 & tr5 & e & tr6 & T & H & -> & _)|
        (d & smp & opt & gps & r5 & tr5 & tr6 & T & H & -> & _)]]]]]].
  - pose proof (phase_design_trace E a input r) as Htr. rewrite H in Htr.
    unfold trace_of in Htr. simpl in Htr. subst tr.
    split; repeat constructor; simpl; unfold follows; simpl; lia.
  - eapply (within_app 1 2 3 14); [lia..| |].
    + eapply within_through_design, T.
    + eapply within_weaken; [| |eapply within_phase_sampling, H]; lia.
  - eapply (within_app 1 4 5 14); [lia..| |].
    + eapply within_through_sampling, T.
    + eapply within_weaken; [| |eapply within_phase_selection, H]; lia.
  - eapply (within_app 1 5 6 14); [lia..| |].
    + eapply within_through_selection, T.
    + eapply within_weaken; [| |eapply within_phase_refit, H]; lia.
  - eapply (within_app 1 6 7 14); [lia..| |].
    + eapply within_through_refit, T.
    + eapply within_weaken; [| |eapply within_phase_report, H]; lia.
  - eapply (within_app 1 10 11 14); [lia..| |].
    + eapply within_through_report, T.
    + eapply within_phase_plot, H.
  - eapply (within_app 1 10 11 14); [lia..| |].
    + eapply within_through_report, T.
    + eapply within_phase_plot, H.
Qed.

End Stages.

(** ** Theorems: no phase starts before the one before it has returned *)

Section Gating.
Context {Σ : Foreign} (E : Env Σ) (a : args.namespace) (input output_path_prefix : string).

Lemma sampler_returned_of_selection (r r' : rng Σ) (d : Design Σ) (smp : Samples Σ)
    (opt : list Z) (tr tr' : list (event Σ)) :
  through_selection E a input r d smp opt r' tr -> tr `prefix_of` tr' ->
  sampler_returned_in E a input r tr'.
Proof.
  intros (r2 & tr2 & tr3 & H2 & _ & ->) Hpre. exists d, smp, r2, tr2. split; [exact H2|].
  etrans; [|exact Hpre]. now apply prefix_app_r.
Qed.

Lemma selection_returned_of_refit (r r' : rng Σ) (d : Design Σ) (smp : Samples Σ)
    (opt : list Z) (gps : gmap Z (gp Σ)) (tr tr' : list (event Σ)) :
  through_refit E a input r d smp opt gps r' tr -> tr `prefix_of` tr' ->
  selection_returned_in E a input r tr'.
Proof.
  intros (r3 & tr3 & tr4 & H3 & _ & ->) Hpre. exists d, smp, opt, r3, tr3.
  split; [exact H3|]. etrans; [|exact Hpre]. now apply prefix_app_r.
Qed.

Lemma refit_completed_of_report (r r' : rng Σ) (d : Design Σ) (smp : Samples Σ)
    (opt : list Z) (gps : gmap Z (gp Σ)) (tr tr' : list (event Σ)) :
  through_report E a input r output_path_prefix d smp opt gps r' tr -> tr `prefix_of` tr' ->
  refit_completed_in E a input r tr'.
Proof.
  intros (r4 & tr4 & tr5 & H4 & _ & ->) Hpre. exists d, smp, opt, gps, r4, tr4.
  split; [exact H4|]. etrans; [|exact Hpre]. now apply prefix_app_r.
Qed.

Lemma selection_returned_sampler (r : rng Σ) (tr : list (event Σ)) :
  selection_returned_in E a input r tr -> sampler_returned_in E a input r tr.
Proof.
  intros (d & smp & opt & r' & tr' & T & Hpre).
  eapply sampler_returned_of_selection; eassumption.
Qed.

Lemma refit_completed_selection (r : rng Σ) (tr : list (event Σ)) :
  refit_completed_in E a input r tr -> selection_returned_in E a input r tr.
Proof.
  intros (d & smp & opt & gps & r' & tr' & T & Hpre).
  eapply selection_returned_of_refit; eassumption.
Qed.

(** An event of a stage shows how far the run had got when it was left. *)
Lemma main_gate (r r' : rng Σ) (o : outcome Σ (Report Σ)) (tr : list (event Σ))
    (ev : event Σ) :
  main E a input output_path_prefix r = (o, r', tr) -> ev ∈ tr ->
  ((5 <= stage ev)%nat -> sampler_returned_in E a input r tr) /\
  ((6 <= stage ev)%nat -> selection_returned_in E a input r tr) /\
  ((7 <= stage ev)%nat -> refit_completed_in E a input r tr).
Proof.
  intros H Hev. pose proof H as Hinv. apply main_inv in Hinv
    as [(e & H1 & _)|[(d & r1 & tr1 & e & tr2 & T & H2 & -> & _)|
       [(d & smp & r2 & tr2 & e & tr3 & T & H3 & -> & _)|
       [(d & smp & opt & r3 & tr3 & e & tr4 & T & H4 & -> & _)|
       [(d & smp & opt & gps & r4 & tr4 & e & tr5 & T & H5 & -> & _)|
       [(d & smp & opt & gps & r5 & tr5 & e & tr6 & T & H6 & -> & _)|
        (d & smp & opt & gps & r5 & tr5 & tr6 & T & H6 & -> & _)]]]]]].
  - pose proof (phase_design_trace E a input r) as Htr. rewrite H1 in Htr.
    unfold trace_of in Htr. simpl in Htr. subst tr.
    repeat (apply elem_of_cons in Hev as [->|Hev]); [..|inversion Hev];
      simpl; repeat split; lia.
  - assert (Hs : (1 <= stage ev <= 4)%nat).
    { eapply within_stage; [|exact Hev]. eapply (within_app 1 2 3 4); [lia..| |].
      - eapply within_through_design, T.
      - eapply within_phase_sampling, H2. }
    repeat split; lia.
  - assert (S5 : sampler_returned_in E a input r (tr2 ++ tr3))
      by (exists d, smp, r2, tr2; split; [exact T|now apply prefix_app_r]).
    assert (Hs : (1 <= stage ev <= 5)%nat).
    { eapply within_stage; [|exact Hev]. eapply (within_app 1 4 5 5); [lia..| |].
      - eapply within_through_sampling, T.
      - eapply within_phase_selection, H3. }
    repeat split; [intros _; exact S5|lia..].
  - assert (S6 : selection_returned_in E a input r (tr3 ++ tr4))
      by (exists d, smp, opt, r3, tr3; split; [exact T|now apply prefix_app_r]).
    assert (Hs : (1 <= stage ev <= 6)%nat).
    { eapply within_stage; [|exact Hev]. eapply (within_app 1 5 6 6); [lia..| |].
      - eapply within_through_selection, T.
      - eapply within_phase_refit, H4. }
    repeat split; [intros _; now apply selection_returned_sampler|intros _; exact S6|lia].
  - assert (S7 : refit_completed_in E a input r (tr4 ++ tr5))
      by (exists d, smp, opt, gps, r4, tr4; split; [exact T|now apply prefix_app_r]).
    repeat split; intros _;
      [now apply selection_returned_sampler, refit_completed_selection
      |now apply refit_completed_selection|exact S7].
  - assert (S7 : refit_completed_in E a input r (tr5 ++ tr6))
      by (eapply refit_completed_of_report; [exact T|now apply prefix_app_r]).
    repeat split; intros _;
      [now apply selection_returned_sampler, refit_completed_selection
      |now apply refit_completed_selection|exact S7].
  - assert (S7 : refit_completed_in E a input r (tr5 ++ tr6))
      by (eapply refit_completed_of_report; [exact T|now apply prefix_app_r]).
    repeat split; intros _;
      [now apply selection_returned_sampler, refit_completed_selection
      |now apply refit_completed_selection|exact S7].
Qed.

End Gating.

(** ** Theorems: configuration checks *)

Section Configuration.
Context {Σ : Foreign} (E : Env Σ).

Lemma run_accepted (a : args.namespace) (input output_path_prefix : string) (r : rng Σ) :
  check_arguments a = Accepted input output_path_prefix ->
  run E a r = main E a input output_path_prefix r.
Proof. unfold run. now intros ->. Qed.

(** Without [-i] or [-o] the script prints the help text and exits; the
    criterion is not looked at. *)
Lemma missing_required_exits (a : args.namespace) (r : rng Σ) :
  args.gene_expression_matrix a = None \/ args.output_path_prefix a = None ->
  run E a r = (Raise SystemExit, r, [EvHelp]).
Proof.
  unfold run, check_arguments.
  destruct (args.gene_expression_matrix a), (args.output_path_prefix a);
    intros [|]; try discriminate; reflexivity.
Qed.

Lemma check_arguments_accepted (a : args.namespace) (input output_path_prefix : string) :
  check_arguments a = Accepted input output_path_prefix <->
  args.gene_expression_matrix a = Some input /\
  args.output_path_prefix a = Some output_path_prefix /\
  args.criterion a ∈ criteria.
Proof.
  unfold check_arguments.
  destruct (args.gene_expression_matrix a) as [i|], (args.output_path_prefix a) as [p|];
    try (split; [discriminate|intros (? & ? & ?); discriminate]).
  destruct (bool_decide (args.criterion a ∈ criteria)) eqn:Hc.
  - apply bool_decide_eq_true_1 in Hc. split.
    + intros [= -> ->]. auto.
    + intros ([= ->] & [= ->] & _). reflexivity.
  - apply bool_decide_eq_false_1 in Hc. split; [discriminate|].
    intros (_ & _ & ?). contradiction.
Qed.

Lemma phase_sampling_trace (a : args.namespace) (d : Design Σ) (r : rng Σ) :
  trace_of (phase_sampling E a d r) =
  EvConstruct (sampler_config a d) ::
  match gibbs_sampler E (sampler_config a d) r with
  | (inr _, _) => [EvSample]
  | (inl _, _) => []
  end.
Proof.
  destruct (phase_sampling E a d r) as [[o r'] tr] eqn:H. unfold trace_of. simpl.
  apply phase_sampling_inv in H as [(e & -> & _ & ->)|(GS & r1 & -> & -> & _)]; reflexivity.
Qed.

(** Once the input is read, the sampler is constructed from the command
    line as it stands, and run if the constructor returns. *)
Lemma main_reaches_sampler (a : args.namespace) (input output_path_prefix : string)
    (r r1 : rng Σ) (d0 : Design Σ) :
  read_gene_expression_matrices E (split_on comma input) (args.true_times a)
    (args.do_not_mean_center a) (args.sigma_n2_shape a) (args.sigma_n2_rate a)
    (np_random_seed E 1234) = (inr d0, r1) ->
  exists rest,
    trace_of (main E a input output_path_prefix r) =
      EvSeed 1234 :: EvRead (split_on comma input) ::
      EvConstruct (sampler_config a (rescaled d0)) :: rest /\
    forall GS r2, gibbs_sampler E (sampler_config a (rescaled d0)) r1 = (inr GS, r2) ->
      exists rest', rest = EvSample :: rest'.
Proof.
  intros Hread.
  assert (Hd : phase_design E a input r =
               (Ok (rescaled d0), r1, [EvSeed 1234; EvRead (split_on comma input)]))
    by (rewrite phase_design_run; now rewrite Hread).
  destruct (main E a input output_path_prefix r) as [[o r'] tr] eqn:Hmain.
  unfold trace_of. simpl. unfold main in Hmain.
  apply bind_inv in Hmain as [(e & H1 & _)|(d & r1' & tr1 & rest1 & H1 & Hrun & ->)];
    rewrite Hd in H1; [discriminate|]. injection H1 as <- <- <-.
  assert (Hsam : exists tr2 rest2,
             rest1 = tr2 ++ rest2 /\ tr2 = trace_of (phase_sampling E a (rescaled d0) r1)).
  { apply bind_inv in Hrun as [(e & H2 & _)|(smp & r2 & tr2 & rest2 & H2 & _ & ->)].
    - exists rest1, []. rewrite H2. now rewrite app_nil_r.
    - exists tr2, rest2. now rewrite H2. }
  destruct Hsam as (tr2 & rest2 & -> & ->). rewrite phase_sampling_trace.
  destruct (gibbs_sampler E (sampler_config a (rescaled d0)) r1) as [[e|GS] r2]; simpl.
  - exists rest2. split; [reflexivity|]. intros ? ? [=].
  - exists (EvSample :: rest2). split; [reflexivity|]. intros _ _ _. now exists rest2.
Qed.

End Configuration.




(** C1, as stated, fails when a required option is missing: with [-i] but
    without [-o] an unknown criterion does not raise the [ValueError]; the
    script prints the help text and exits at line 273. *)
Lemma invalid_criterion_without_output_exits :
  let a := args.with_criterion "median" (args.defaults (Some "expr.txt") None) in
  (args.criterion a ∉ criteria) /\
  run Demo.env a 0%nat = (Raise SystemExit, 0%nat, [EvHelp]) /\
  result_of (run Demo.env a 0%nat) <> Raise (ValueError criterion_message).
Proof.
  cbv zeta. split.
  - unfold criteria. rewrite !elem_of_cons, elem_of_nil.
    intros [H|[H|[H|[H|[H|[]]]]]]; discriminate H.
  - split; [reflexivity|]. discriminate.
Qed.



(** C2, as stated, fails: with [--alpha 0 -m 0 -s 0] (a non-positive
    concentration, no empty cluster, thinning by zero) and a sampler that
    does not object, the script raises nothing; the sampler is constructed
    with exactly these values and run, and the run completes. *)
Lemma nonpositive_prior_is_sampled :
  let a := args.with_prior 0%float 0 0 Demo.command_line in
  PrimFloat.leb (args.alpha a) 0%float = true /\ args.m a < 1 /\ args.s a < 1 /\
  (exists rep, result_of (run Demo.env a 0%nat) = Ok rep) /\
  (exists cfg, trace_of (run Demo.env a 0%nat) !! 2%nat = Some (EvConstruct cfg) /\
               gs_alpha cfg = 0%float /\ gs_m cfg = 0 /\ gs_s cfg = 0) /\
  trace_of (run Demo.env a 0%nat) !! 3%nat = Some EvSample.
Proof.
  cbv zeta. split; [reflexivity|]. split; [reflexivity|]. split; [reflexivity|].
  split; [|split].
  - eexists. vm_compute. reflexivity.
  - eexists. split; [vm_compute; reflexivity|]. repeat split.
  - vm_compute. reflexivity.
Qed.

(** C2 (as amended). The checks before the run look at the two required
    options and the criterion only: they give the same verdict whatever
    [--alpha], [-m] and [-s] are.  On an accepted command line, once the
    input is read, the script constructs the sampler with [alpha], [m] and
    [s] exactly as given and, if the constructor returns, runs it. *)
Theorem prior_parameters_reach_sampler_unchecked {Σ : Foreign} (E : Env Σ)
    (a : args.namespace) (input output_path_prefix : string)
    (r r1 : rng Σ) (d0 : Design Σ) :
  check_arguments a = Accepted input output_path_prefix ->
  read_gene_expression_matrices E (split_on comma input) (args.true_times a)
    (args.do_not_mean_center a) (args.sigma_n2_shape a) (args.sigma_n2_rate a)
    (np_random_seed E 1234) = (inr d0, r1) ->
  (forall alpha' m' s',
     check_arguments (args.with_prior alpha' m' s' a) = check_arguments a) /\
  exists cfg rest,
    trace_of (run E a r) =
      EvSeed 1234 :: EvRead (split_on comma input) :: EvConstruct cfg :: rest /\
    cfg = sampler_config a (rescaled d0) /\
    gs_alpha cfg = args.alpha a /\ gs_m cfg = args.m a /\ gs_s cfg = args.s a /\
    forall GS r2, gibbs_sampler E cfg r1 = (inr GS, r2) -> exists rest', rest = EvSample :: rest'.
Proof.
  intros Hacc Hread. split; [reflexivity|].
  rewrite (run_accepted E a input output_path_prefix r Hacc).
  destruct (main_reaches_sampler E a input output_path_prefix r r1 d0 Hread)
    as (rest & Htr & Hrun).
  exists (sampler_config a (rescaled d0)), rest. repeat split; assumption.
Qed.

Lemma prior_parameters_reach_sampler_unchecked_witness :
  exists cfg rest,
    trace_of (run Demo.env (args.with_prior 0%float 0 0 Demo.command_line) 0%nat) =
      EvSeed 1234 :: EvRead ["expr.txt"] :: EvConstruct cfg :: rest /\
    gs_alpha cfg = 0%float /\ gs_m cfg = 0 /\ gs_s cfg = 0.
Proof.
  destruct (prior_parameters_reach_sampler_unchecked Demo.env
              (args.with_prior 0%float 0 0 Demo.command_line) "expr.txt" "out"
              0%nat 1235%nat Demo.design eq_refl eq_refl)
    as (_ & cfg & rest & Htr & _ & Ha & Hm & Hs & _).
  exists cfg, rest. repeat split; assumption.
Defined.

(** C9. The optimizer name is never checked: the checks before the run give
    the same verdict for every string given as [--optimizer], and on an
    accepted command line, once the input is read, the sampler is
    constructed with that very string and, if the constructor returns,
    run. *)
Theorem optimizer_never_validated {Σ : Foreign} (E : Env Σ)
    (a : args.namespace) (name input output_path_prefix : string)
    (r r1 : rng Σ) (d0 : Design Σ) :
  check_arguments a = Accepted input output_path_prefix ->
  read_gene_expression_matrices E (split_on comma input) (args.true_times a)
    (args.do_not_mean_center a) (args.sigma_n2_shape a) (args.sigma_n2_rate a)
    (np_random_seed E 1234) = (inr d0, r1) ->
  check_arguments (args.with_optimizer name a) = Accepted input output_path_prefix /\
  exists cfg rest,
    trace_of (run E (args.with_optimizer name a) r) =
      EvSeed 1234 :: EvRead (split_on comma input) :: EvConstruct cfg :: rest /\
    gs_optimizer cfg = name /\
    forall GS r2, gibbs_sampler E cfg r1 = (inr GS, r2) -> exists rest', rest = EvSample :: rest'.
Proof.
  intros Hacc Hread.
  assert (Hacc' : check_arguments (args.with_optimizer name a)
                  = Accepted input output_path_prefix) by exact Hacc.
  split; [exact Hacc'|].
  rewrite (run_accepted E _ input output_path_prefix r Hacc').
  destruct (main_reaches_sampler E (args.with_optimizer name a) input output_path_prefix
              r r1 d0 Hread) as (rest & Htr & Hrun).
  exists (sampler_config (args.with_optimizer name a) (rescaled d0)), rest.
  repeat split; assumption.
Qed.

Lemma optimizer_never_validated_witness :
  ("newton" ∉ documented_optimizers) /\
  (exists cfg rest,
    trace_of (run Demo.env (args.with_optimizer "newton" Demo.command_line) 0%nat) =
      EvSeed 1234 :: EvRead ["expr.txt"] :: EvConstruct cfg :: EvSample :: rest /\
    gs_optimizer cfg = "newton").
Proof.
  split.
  - unfold documented_optimizers. rewrite !elem_of_cons, elem_of_nil.
    intros [H|[H|[H|[H|[]]]]]; discriminate H.
  - destruct (optimizer_never_validated Demo.env Demo.command_line "newton" "expr.txt" "out"
                0%nat 1235%nat Demo.design eq_refl eq_refl)
      as (_ & cfg & rest & Htr & Hopt & Hrun).
    destruct (Hrun tt 1236%nat eq_refl) as [rest' ->].
    exists cfg, rest'. split; assumption.
Defined.

(** ** Theorems: the whole run *)

Section WholeRun.
Context {Σ : Foreign} (E : Env Σ) (a : args.namespace).

Lemma run_within (r : rng Σ) : within 0 14 (trace_of (run E a r)).
Proof.
  unfold run. destruct (check_arguments a) as [| |input output_path_prefix].
  - split; repeat constructor; simpl; lia.
  - apply within_nil.
  - destruct (main E a input output_path_prefix r) as [[o r'] tr] eqn:H.
    eapply within_weaken; [| |eapply main_within, H]; lia.
Qed.

(** A run that completes went through every phase, and left the events of
    each phase in full, phase after phase. *)
Lemma run_complete (r : rng Σ) (rep : Report Σ) :
  result_of (run E a r) = Ok rep ->
  exists input output_path_prefix call_made r',
    check_arguments a = Accepted input output_path_prefix /\
    through_report E a input r output_path_prefix (r_design rep) (r_samples rep)
      (r_optimal_clusters rep) (r_optimal_clusters_GP rep) r'
      ([EvSeed 1234; EvRead (split_on comma input);
        EvConstruct (sampler_config a (r_design rep)); EvSample; EvSelect call_made]
       ++ refit_events E a (r_optimal_cluster_labels rep)
       ++ report_events output_path_prefix) /\
    documented_selection (args.criterion a)
      (np_array E (sampled_clusterings (r_samples rep)))
      (sim_mat (r_samples rep)) (log_likelihoods (r_samples rep)) = Some call_made /\
    r_optimal_cluster_labels rep
      = optimal_cluster_labels (d_gene_names (r_design rep)) (r_optimal_clusters rep) /\
    r_optimal_cluster_labels_original_gene_names rep
      = optimal_cluster_labels_original_gene_names (d_gene_names (r_design rep))
          (r_optimal_clusters rep) /\
    trace_of (run E a r) =
      [EvSeed 1234; EvRead (split_on comma input);
       EvConstruct (sampler_config a (r_design rep)); EvSample; EvSelect call_made]
      ++ refit_events E a (r_optimal_cluster_labels rep)
      ++ report_events output_path_prefix
      ++ plot_events a output_path_prefix.
Proof.
  unfold run. destruct (check_arguments a) as [| |input output_path_prefix];
    [discriminate..|].
  destruct (main E a input output_path_prefix r) as [[o r'] tr] eqn:H.
  unfold result_of, trace_of. simpl. intros ->.
  apply main_inv in H
    as [(e & _ & [=])|[(d & r1 & tr1 & e & tr2 & _ & _ & _ & [=])|
       [(d & smp & r2 & tr2 & e & tr3 & _ & _ & _ & [=])|
       [(d & smp & opt & r3 & tr3 & e & tr4 & _ & _ & _ & [=])|
       [(d & smp & opt & gps & r4 & tr4 & e & tr5 & _ & _ & _ & [=])|
       [(d & smp & opt & gps & r5 & tr5 & e & tr6 & _ & _ & _ & [=])|
        (d & smp & opt & gps & r5 & tr5 & tr6 & T & H6 & -> & [= ->])]]]]]].
  pose proof T as T'.
  apply through_report_inv in T' as (call_made & Hdoc & Htr5). subst tr5.
  apply phase_plot_inv in H6 as [_ H6]. rewrite (H6 tt eq_refl).
  exists input, output_path_prefix, call_made, r5.
  cbn [r_design r_samples r_optimal_clusters r_optimal_clusters_GP
       r_optimal_cluster_labels r_optimal_cluster_labels_original_gene_names].
  split; [reflexivity|]. split; [exact T|]. split; [exact Hdoc|].
  split; [reflexivity|]. split; [reflexivity|].
  now rewrite <- !app_assoc.
Qed.

(** Whatever event a run leaves, the phases before the stage of that event
    had returned when it was left. *)
Lemma run_gate (r : rng Σ) (ev : event Σ) :
  ev ∈ trace_of (run E a r) -> (5 <= stage ev)%nat ->
  exists input output_path_prefix,
    check_arguments a = Accepted input output_path_prefix /\
    sampler_returned_in E a input r (trace_of (run E a r)) /\
    ((6 <= stage ev)%nat -> selection_returned_in E a input r (trace_of (run E a r))) /\
    ((7 <= stage ev)%nat -> refit_completed_in E a input r (trace_of (run E a r))).
Proof.
  unfold run. destruct (check_arguments a) as [| |input output_path_prefix].
  - unfold trace_of. simpl. intros Hev. apply elem_of_cons in Hev as [->|Hev];
      [simpl; lia|inversion Hev].
  - unfold trace_of. simpl. intros Hev. inversion Hev.
  - destruct (main E a input output_path_prefix r) as [[o r'] tr] eqn:H.
    unfold trace_of. simpl. intros Hev Hs.
    destruct (main_gate E a input output_path_prefix r r' o tr ev H Hev) as (H5 & H6 & H7).
    exists input, output_path_prefix. split; [reflexivity|]. auto.
Qed.

End WholeRun.


Lemma within_refit_events {Σ : Foreign} (E : Env Σ) (a : args.namespace)
    (labels : gmap Z (list nat)) :
  within 6 6 (refit_events E a labels).
Proof.
  apply within_refit. unfold refit_events.
  induction (iteritems E labels) as [|item items IH]; simpl; repeat constructor. exact IH.
Qed.

(** ** Theorems: every phase starts when the one before it has returned *)

(** Splits the trace of a sequence at the end of its first part. *)
Ltac first_part rest H :=
  match goal with
  | |- context [trace_of (bind ?c ?k ?r)] => destruct (bind_trace_prefix c k r) as [rest H]
  end.

Section Continues.
Context {Σ : Foreign} (E : Env Σ) (a : args.namespace) (input output_path_prefix : string).

Lemma trace_bind_ok {A B : Type} (c : M Σ A) (k : A -> M Σ B) (r r1 : rng Σ) (x : A)
    (tr1 : list (event Σ)) :
  c r = (Ok x, r1, tr1) -> trace_of (bind c k r) = tr1 ++ trace_of (k x r1).
Proof.
  intros H. unfold bind, trace_of. rewrite H. now destruct (k x r1) as [[o r2] tr2].
Qed.

Lemma main_after_design (r r1 : rng Σ) (d : Design Σ) (tr1 : list (event Σ)) :
  through_design E a input r d r1 tr1 ->
  exists rest,
    trace_of (main E a input output_path_prefix r)
    = tr1 ++ trace_of (phase_sampling E a d r1) ++ rest.
Proof.
  unfold through_design. intros H1. unfold main.
  rewrite (trace_bind_ok _ _ _ _ _ _ H1).
  first_part rest Hrest. rewrite Hrest. now exists rest.
Qed.

Lemma main_after_sampling (r r2 : rng Σ) (d : Design Σ) (smp : Samples Σ)
    (tr2 : list (event Σ)) :
  through_sampling E a input r d smp r2 tr2 ->
  exists rest,
    trace_of (main E a input output_path_prefix r)
    = tr2 ++ trace_of (phase_selection E (args.criterion a) smp r2) ++ rest.
Proof.
  intros (r1 & tr1 & tr2' & H1 & H2 & ->). unfold through_design in H1. unfold main.
  rewrite (trace_bind_ok _ _ _ _ _ _ H1), (trace_bind_ok _ _ _ _ _ _ H2).
  first_part rest Hrest. rewrite Hrest.
  exists rest. now rewrite <- !app_assoc.
Qed.

Lemma main_after_selection (r r3 : rng Σ) (d : Design Σ) (smp : Samples Σ) (opt : list Z)
    (tr3 : list (event Σ)) :
  through_selection E a input r d smp opt r3 tr3 ->
  exists rest,
    trace_of (main E a input output_path_prefix r)
    = tr3 ++ trace_of (phase_refit E a d smp (optimal_cluster_labels (d_gene_names d) opt) r3)
          ++ rest.
Proof.
  intros (r2 & tr2 & tr3' & (r1 & tr1 & tr2' & H1 & H2 & ->) & H3 & ->).
  unfold through_design in H1. unfold main.
  rewrite (trace_bind_ok _ _ _ _ _ _ H1), (trace_bind_ok _ _ _ _ _ _ H2),
    (trace_bind_ok _ _ _ _ _ _ H3). cbv zeta.
  first_part rest Hrest. rewrite Hrest.
  exists rest. now rewrite <- !app_assoc.
Qed.

Lemma main_after_refit (r r4 : rng Σ) (d : Design Σ) (smp : Samples Σ) (opt : list Z)
    (gps : gmap Z (gp Σ)) (tr4 : list (event Σ)) :
  through_refit E a input r d smp opt gps r4 tr4 ->
  exists rest,
    trace_of (main E a input output_path_prefix r)
    = tr4 ++ trace_of (phase_report E d smp
                         (optimal_cluster_labels_original_gene_names (d_gene_names d) opt)
                         output_path_prefix r4)
          ++ rest.
Proof.
  intros (r3 & tr3 & tr4' & (r2 & tr2 & tr3' & (r1 & tr1 & tr2' & H1 & H2 & ->) & H3 & ->)
          & H4 & ->).
  unfold through_design in H1. unfold optimal_cluster_labels in H4. unfold main.
  rewrite (trace_bind_ok _ _ _ _ _ _ H1), (trace_bind_ok _ _ _ _ _ _ H2),
    (trace_bind_ok _ _ _ _ _ _ H3). cbv zeta.
  rewrite (trace_bind_ok _ _ _ _ _ _ H4).
  first_part rest Hrest. rewrite Hrest.
  exists rest. now rewrite <- !app_assoc.
Qed.

Lemma main_after_report_trace (r r5 : rng Σ) (d : Design Σ) (smp : Samples Σ) (opt : list Z)
    (gps : gmap Z (gp Σ)) (tr5 : list (event Σ)) :
  through_report E a input r output_path_prefix d smp opt gps r5 tr5 ->
  trace_of (main E a input output_path_prefix r)
  = tr5 ++ trace_of (phase_plot E a d smp gps output_path_prefix r5).
Proof.
  intros (r4 & tr4 & tr5' & (r3 & tr3 & tr4' & (r2 & tr2 & tr3' & (r1 & tr1 & tr2' & H1 & H2 & ->)
            & H3 & ->) & H4 & ->) & H5 & ->).
  unfold through_design in H1. unfold optimal_cluster_labels in H4.
  unfold optimal_cluster_labels_original_gene_names in H5. unfold main.
  rewrite (trace_bind_ok _ _ _ _ _ _ H1), (trace_bind_ok _ _ _ _ _ _ H2),
    (trace_bind_ok _ _ _ _ _ _ H3). cbv zeta.
  rewrite (trace_bind_ok _ _ _ _ _ _ H4), (trace_bind_ok _ _ _ _ _ _ H5).
  rewrite <- !app_assoc. do 4 f_equal.
  unfold bind, trace_of.
  destruct (phase_plot E a d smp gps output_path_prefix r5) as [[[[]|e] r6] tr6]; simpl;
    [now rewrite app_nil_r|reflexivity].
Qed.

Lemma main_trace_starts (r : rng Σ) :
  exists rest,
    trace_of (main E a input output_path_prefix r) =
    EvSeed 1234 :: EvRead (split_on comma input) :: rest.
Proof.
  destruct (main E a input output_path_prefix r) as [[o r'] tr] eqn:Hmain.
  unfold trace_of. simpl. unfold main in Hmain.
  pose proof (phase_design_trace E a input r) as Htr. unfold trace_of in Htr.
  apply bind_inv in Hmain as [(e & H1 & _)|(d & r1 & tr1 & rest1 & H1 & _ & ->)];
    rewrite H1 in Htr; simpl in Htr; subst.
  - now exists [].
  - now exists rest1.
Qed.

End Continues.

Section Starts.
Context {Σ : Foreign} (E : Env Σ).

Lemma phase_report_starts (d : Design Σ) (smp : Samples Σ) (names : gmap Z (list string))
    (output_path_prefix : string) (r : rng Σ) :
  exists rest,
    trace_of (phase_report E d smp names output_path_prefix r)
    = EvSave SimilarityMatrixFile output_path_prefix :: rest.
Proof.
  unfold phase_report. first_part rest Hrest. rewrite Hrest, call_trace. now exists rest.
Qed.

Lemma phase_selection_trace (criterion : string) (smp : Samples Σ) (r : rng Σ) :
  criterion ∈ criteria ->
  exists call_made,
    documented_selection criterion (np_array E (sampled_clusterings smp)) (sim_mat smp)
      (log_likelihoods smp) = Some call_made /\
    trace_of (phase_selection E criterion smp r) = [EvSelect call_made].
Proof.
  intros Hin. rewrite phase_selection_documented.
  apply (documented_selection_accepts criterion (np_array E (sampled_clusterings smp))
           (sim_mat smp) (log_likelihoods smp)) in Hin as [call_made Hdoc].
  exists call_made. split; [exact Hdoc|]. rewrite Hdoc. apply call_trace.
Qed.

End Starts.

(** ** Theorems: reproducibility *)


(** C7. The phases run in a fixed order, each after the one before it has
    returned.  The events of every run are in schedule order (seed, read,
    construct, sample, select, refit, the four result files, the figures).
    On an accepted command line the generator is seeded and the input is
    read, exactly once; when the reader has returned the sampler is
    constructed, and run when the constructor has returned; when the
    sampler has returned its outputs the one selection documented for the
    criterion is called; when it has returned the refit loop runs; when
    the loop has completed the first result file is written; when the four
    files are written the plot phase runs.  A run that completes has left
    exactly the full schedule.  Whenever an event of selection or later
    occurs the sampler had returned, whenever a refit event or later
    occurs the selection had returned, and whenever a file is written or a
    figure drawn the refit loop had completed. *)
Theorem phases_run_in_order {Σ : Foreign} (E : Env Σ) (a : args.namespace) (r : rng Σ) :
  let tr := trace_of (run E a r) in
  StronglySorted follows tr /\
  (length (List.filter is_read tr) <= 1)%nat /\
  (forall input output_path_prefix,
     check_arguments a = Accepted input output_path_prefix ->
     (exists rest, tr = EvSeed 1234 :: EvRead (split_on comma input) :: rest) /\
     List.filter is_read tr = [EvRead (split_on comma input)] /\
     (forall d r1 tr1, through_design E a input r d r1 tr1 ->
        exists rest,
          tr = tr1 ++ EvConstruct (sampler_config a d) :: rest /\
          forall GS r', gibbs_sampler E (sampler_config a d) r1 = (inr GS, r') ->
            exists rest', rest = EvSample :: rest') /\
     (forall d smp r2 tr2, through_sampling E a input r d smp r2 tr2 ->
        exists call_made rest,
          documented_selection (args.criterion a) (np_array E (sampled_clusterings smp))
            (sim_mat smp) (log_likelihoods smp) = Some call_made /\
          tr = tr2 ++ EvSelect call_made :: rest) /\
     (forall d smp opt r3 tr3, through_selection E a input r d smp opt r3 tr3 ->
        exists rest,
          tr = tr3 ++ trace_of (phase_refit E a d smp
                                  (optimal_cluster_labels (d_gene_names d) opt) r3) ++ rest) /\
     (forall d smp opt gps r4 tr4, through_refit E a input r d smp opt gps r4 tr4 ->
        exists rest, tr = tr4 ++ EvSave SimilarityMatrixFile output_path_prefix :: rest) /\
     (forall d smp opt gps r5 tr5,
        through_report E a input r output_path_prefix d smp opt gps r5 tr5 ->
        tr = tr5 ++ trace_of (phase_plot E a d smp gps output_path_prefix r5))) /\
  (forall rep, result_of (run E a r) = Ok rep ->
     exists input output_path_prefix call_made,
       check_arguments a = Accepted input output_path_prefix /\
       tr = [EvSeed 1234; EvRead (split_on comma input);
             EvConstruct (sampler_config a (r_design rep)); EvSample; EvSelect call_made]
            ++ refit_events E a (optimal_cluster_labels (d_gene_names (r_design rep))
                                 (r_optimal_clusters rep))
            ++ report_events output_path_prefix
            ++ plot_events a output_path_prefix) /\
  (forall ev, ev ∈ tr -> (5 <= stage ev)%nat ->
     exists input output_path_prefix,
       check_arguments a = Accepted input output_path_prefix /\
       sampler_returned_in E a input r tr /\
       ((6 <= stage ev)%nat -> selection_returned_in E a input r tr) /\
       ((7 <= stage ev)%nat -> refit_completed_in E a input r tr)).
Proof.
  cbv zeta. pose proof (run_within E a r) as [Hs Hb].
  assert (Hread : (length (List.filter is_read (trace_of (run E a r))) <= 1)%nat).
  { apply (in_order_at_most_once is_read 2); [lia| |exact Hs].
    intros ev. destruct ev; simpl; congruence. }
  split; [exact Hs|]. split; [exact Hread|]. split; [|split].
  - intros input out Hacc.
    assert (Hcrit : args.criterion a ∈ criteria) by (now apply check_arguments_accepted in Hacc).
    rewrite (run_accepted E a input out r Hacc) in *.
    destruct (main_trace_starts E a input out r) as [rest Hstart].
    split; [now exists rest|]. split.
    { rewrite Hstart in Hread |- *. cbn [List.filter is_read] in Hread |- *.
      destruct (List.filter is_read rest); [reflexivity|simpl in Hread; lia]. }
    split.
    { intros d r1 tr1 T. destruct (main_after_design E a input out r r1 d tr1 T) as [rest' ->].
      rewrite phase_sampling_trace.
      destruct (gibbs_sampler E (sampler_config a d) r1) as [[e|GS] r2].
      - eexists. split; [reflexivity|]. intros ? ? [=].
      - eexists. split; [reflexivity|]. intros _ _ _. now eexists. }
    split.
    { intros d smp r2 tr2 T.
      destruct (main_after_sampling E a input out r r2 d smp tr2 T) as [rest' ->].
      destruct (phase_selection_trace E (args.criterion a) smp r2 Hcrit)
        as (call_made & Hdoc & ->).
      now exists call_made, rest'. }
    split; [intros d smp opt r3 tr3 T; exact (main_after_selection E a input out r r3 d smp opt tr3 T)|].
    split.
    { intros d smp opt gps r4 tr4 T.
      destruct (main_after_refit E a input out r r4 d smp opt gps tr4 T) as [rest' ->].
      destruct (phase_report_starts E d smp
                  (optimal_cluster_labels_original_gene_names (d_gene_names d) opt) out r4)
        as [rest'' ->].
      now eexists. }
    intros d smp opt gps r5 tr5 T.
    exact (main_after_report_trace E a input out r r5 d smp opt gps tr5 T).
  - intros rep Hrep.
    destruct (run_complete E a r rep Hrep)
      as (input & output_path_prefix & call_made & r' & Hacc & _ & _ & Hlab & _ & Htr).
    exists input, output_path_prefix, call_made. split; [exact Hacc|].
    now rewrite Htr, Hlab.
  - intros ev Hev Hstage. now apply run_gate.
Qed.



(** C5, as stated, fails on its last part: the script takes what the
    selection function returns as it is.  When the function returns two
    labels for three genes the run completes, and the third gene is in no
    cluster. *)
Lemma selection_vector_not_checked :
  exists rep,
    result_of (run (Faulty.env [] true [0; 0]) Demo.command_line 0%nat) = Ok rep /\
    d_gene_names (r_design rep) = ["g1"; "g2"; "g3"] /\
    r_optimal_clusters rep = [0; 0] /\
    map_to_list (r_optimal_cluster_labels rep) = [(0, [0%nat; 1%nat])].
Proof.
  destruct (run (Faulty.env [] true [0; 0]) Demo.command_line 0%nat) as [[o r'] tr] eqn:Hrun.
  vm_compute in Hrun. injection Hrun as <- _ _.
  eexists. split; [reflexivity|]. repeat split; vm_compute; reflexivity.
Qed.

Lemma refit_every_cluster_once_witness :
  exists tr,
    trace_of (phase_refit Demo.env Demo.command_line Demo.design Demo.samples
                (optimal_cluster_labels ["g1"; "g2"; "g3"] [0; 0; 1]) 1237%nat) = tr /\
    builds_of 0 tr = 1%nat /\ optimizations_of 0 tr = 1%nat /\
    builds_of 1 tr = 1%nat /\ builds_of 2 tr = 0%nat.
Proof.
  destruct (phase_refit Demo.env Demo.command_line Demo.design Demo.samples
              (optimal_cluster_labels ["g1"; "g2"; "g3"] [0; 0; 1]) 1237%nat)
    as [[o r'] tr] eqn:Hrun.
  assert (Ho : exists gps, o = Ok gps).
  { vm_compute in Hrun. injection Hrun as <- _ _. eexists. reflexivity. }
  destruct Ho as [gps ->].
  destruct (refit_every_cluster_once Demo.env Demo.command_line Demo.design Demo.samples
              ["g1"; "g2"; "g3"] [0; 0; 1] 1237%nat r' gps tr eq_refl Hrun)
    as (_ & Hin & Hout & _).
  exists tr. split; [reflexivity|].
  assert (H0 : (0 : Z) ∈ [0; 0; 1]) by apply list_elem_of_here.
  assert (H1 : (1 : Z) ∈ [0; 0; 1]) by (do 2 apply list_elem_of_further; apply list_elem_of_here).
  assert (H2 : (2 : Z) ∉ [0; 0; 1]).
  { rewrite !elem_of_cons, elem_of_nil. intros [H|[H|[H|[]]]]; discriminate H. }
  destruct (Hin 0 H0) as [-> ->]. destruct (Hin 1 H1) as [-> _].
  destruct (Hout 2 H2) as [-> _]. repeat split.
Defined.


(** ** Further theorems: splitting the comma-separated options *)

Lemma split_on_nonempty (sep : ascii) (s : string) : split_on sep s <> [].
Proof.
  induction s as [|c s IH]; simpl; [discriminate|].
  destruct (Ascii.eqb c sep); [discriminate|].
  destruct (split_on sep s); [contradiction|discriminate].
Qed.

Lemma join_on_cons (sep : ascii) (piece : string) (pieces : list string) :
  pieces <> [] ->
  join_on sep (piece :: pieces) = (piece ++ String sep (join_on sep pieces))%string.
Proof. destruct pieces; [contradiction|reflexivity]. Qed.

Lemma append_empty_r (s : string) : (s ++ EmptyString)%string = s.
Proof.
  induction s as [|c s IH]; [reflexivity|].
  change (String c s ++ EmptyString)%string with (String c (s ++ EmptyString)%string).
  now rewrite IH.
Qed.

(** X1. [str.split] on the comma-separated options ([-i] at line 293,
    [--plot_types] at line 383): the pieces, joined by commas, give the
    option back; there is one more piece than there are commas, so at least
    one; no piece holds a comma; and a list of comma-free pieces is what its
    own join splits into. *)
Theorem split_on_round_trip (sep : ascii) (s : string) :
  join_on sep (split_on sep s) = s /\
  length (split_on sep s) = S (occurrences sep s) /\
  Forall (fun piece => occurs sep piece = false) (split_on sep s) /\
  (forall pieces, pieces <> [] -> Forall (fun piece => occurs sep piece = false) pieces ->
     split_on sep (join_on sep pieces) = pieces).
Proof.
  split; [|split; [|split]].
  - induction s as [|c s IH]; [reflexivity|]. simpl.
    pose proof (split_on_nonempty sep s) as Hne.
    destruct (Ascii.eqb_spec c sep) as [->|Hc].
    + rewrite join_on_cons by exact Hne. simpl. now rewrite IH.
    + destruct (split_on sep s) as [|h rest]; [contradiction|].
      destruct rest as [|h' rest].
      * unfold join_on in *. simpl in *. now rewrite IH.
      * rewrite join_on_cons by discriminate. rewrite join_on_cons in IH by discriminate.
        rewrite <- IH. reflexivity.
  - induction s as [|c s IH]; [reflexivity|]. simpl.
    pose proof (split_on_nonempty sep s) as Hne.
    destruct (Ascii.eqb c sep); simpl; [now rewrite IH|].
    destruct (split_on sep s) as [|h rest]; [contradiction|]. simpl in *. exact IH.
  - induction s as [|c s IH]; [repeat constructor|]. simpl.
    pose proof (split_on_nonempty sep s) as Hne.
    destruct (Ascii.eqb c sep) eqn:Hc; [constructor; [reflexivity|exact IH]|].
    destruct (split_on sep s) as [|h rest]; [contradiction|].
    apply Forall_cons in IH as [Hh Hrest]. constructor; [|exact Hrest].
    simpl. now rewrite Hc, Hh.
  - intros pieces Hne Hfree. induction Hfree as [|piece pieces Hpiece Hfree IH]; [contradiction|].
    assert (Hone : forall tail, split_on sep tail <> [] ->
              split_on sep (piece ++ tail)%string =
              match split_on sep tail with
              | h :: rest => (piece ++ h)%string :: rest
              | [] => []
              end).
    { clear IH Hne Hfree. induction piece as [|c piece IHp]; intros tail Ht.
      - change (EmptyString ++ tail)%string with tail.
        destruct (split_on sep tail); [contradiction|reflexivity].
      - change (String c piece ++ tail)%string with (String c (piece ++ tail)%string).
        simpl in Hpiece. apply orb_false_iff in Hpiece as [Hc Hp].
        cbn [split_on]. rewrite Hc, (IHp Hp tail Ht).
        destruct (split_on sep tail); [contradiction|reflexivity]. }
    destruct pieces as [|piece' pieces].
    + unfold join_on. cbn [String.concat].
      rewrite <- (append_empty_r piece) at 1.
      rewrite (Hone EmptyString) by (simpl; discriminate). cbn [split_on].
      now rewrite append_empty_r.
    + rewrite join_on_cons by discriminate.
      rewrite (Hone _ (split_on_nonempty sep _)). cbn [split_on].
      rewrite Ascii.eqb_refl. rewrite IH by discriminate.
      now rewrite append_empty_r.
Qed.

(** ** Further theorems: the key of the similarity-matrix heatmap *)

Lemma names_at_Forall2 (gene_names : list string) (key : list nat) (names : list string) :
  names_at gene_names key = Some names <->
  Forall2 (fun idx name => gene_names !! idx = Some name) key names.
Proof.
  revert names. induction key as [|idx key IH]; intros names; simpl.
  - split; [intros [= <-]; constructor|intros H; inversion H; reflexivity].
  - destruct (gene_names !! idx) as [name|] eqn:Hidx.
    + destruct (names_at gene_names key) as [rest|] eqn:Hrest.
      * split.
        -- intros [= <-]. constructor; [exact Hidx|]. now apply IH.
        -- intros H. inversion H as [|? name' ? rest' Hn Hr]; subst.
           apply IH in Hr. congruence.
      * split; [discriminate|]. intros H. inversion H as [|? name' ? rest' Hn Hr]; subst.
        apply IH in Hr. discriminate.
    + split; [discriminate|]. intros H. inversion H; subst. congruence.
Qed.

Lemma names_at_None (gene_names : list string) (key : list nat) :
  names_at gene_names key = None <->
  exists idx, idx ∈ key /\ (length gene_names <= idx)%nat.
Proof.
  induction key as [|idx key IH]; simpl.
  - split; [discriminate|]. intros (idx & Hin & _). inversion Hin.
  - destruct (gene_names !! idx) as [name|] eqn:Hidx.
    + destruct (names_at gene_names key) as [rest|].
      * split; [discriminate|]. intros (idx' & Hin & Hge).
        apply elem_of_cons in Hin as [->|Hin].
        -- apply lookup_lt_Some in Hidx. lia.
        -- assert (Hex : exists idx, idx ∈ key /\ (length gene_names <= idx)%nat) by eauto.
           apply IH in Hex. discriminate.
      * split; [|reflexivity]. intros _.
        destruct (proj1 IH eq_refl) as (idx' & Hin & Hge).
        exists idx'. split; [now apply list_elem_of_further|exact Hge].
    + split; [|reflexivity]. intros _. exists idx.
      split; [apply list_elem_of_here|]. now apply lookup_ge_None.
Qed.

(** X2. The list comprehension [[gene_names[idx] for idx in sim_mat_key]]
    of line 386, for a key of indices counted from the front: it raises
    [IndexError] exactly when some index of the key is not below the number
    of genes; otherwise it gives one name per index,
    the name at that index, in key order; and when the key is a permutation
    of all gene indices, the names written to the key file are a permutation
    of the gene names. *)
Theorem names_at_key (gene_names : list string) (key : list nat) :
  (names_at gene_names key = None <->
   exists idx, idx ∈ key /\ (length gene_names <= idx)%nat) /\
  (forall names, names_at gene_names key = Some names ->
     length names = length key /\
     forall i idx, key !! i = Some idx -> names !! i = gene_names !! idx) /\
  (key ≡ₚ seq 0 (length gene_names) ->
   exists names, names_at gene_names key = Some names /\ names ≡ₚ gene_names).
Proof.
  split; [|split].
  - apply names_at_None.
  - intros names Hnames. apply names_at_Forall2 in Hnames. split.
    + symmetry. eapply Forall2_length, Hnames.
    + intros i idx Hi.
      destruct (Forall2_lookup_l _ _ _ _ _ Hnames Hi) as (name & Hname & Hidx).
      congruence.
  - intros Hperm.
    assert (Hall : Forall (fun idx => (idx < length gene_names)%nat) key).
    { rewrite Forall_forall. intros idx Hin. rewrite Hperm in Hin.
      apply elem_of_seq in Hin. lia. }
    assert (Hsome : forall l, Forall (fun idx => (idx < length gene_names)%nat) l ->
              names_at gene_names l = Some ((fun idx => default EmptyString (gene_names !! idx)) <$> l)).
    { intros l Hl. apply names_at_Forall2. induction Hl as [|idx l Hidx Hl IH]; [constructor|].
      rewrite fmap_cons. constructor; [|exact IH].
      destruct (lookup_lt_is_Some_2 gene_names idx Hidx) as [name ->]. reflexivity. }
    eexists. split; [apply Hsome, Hall|]. rewrite Hperm.
    clear. induction gene_names as [|name gene_names IH] using rev_ind; [reflexivity|].
    rewrite length_app. simpl. rewrite Nat.add_1_r, seq_S, fmap_app. simpl.
    rewrite lookup_app_r by lia. rewrite Nat.sub_diag. simpl.
    apply Permutation_app; [|reflexivity]. etrans; [|exact IH].
    apply eq_subrelation; [apply _|]. apply list_fmap_ext. intros i idx Hidx.
    apply lookup_seq in Hidx as [-> Hlt]. simpl. now rewrite lookup_app_l by lia.
Qed.

(** ** Further theorems: burn-in lengths, continued *)


(** ** Further theorems: grouping, continued *)

Lemma snd_zip_take {A B : Type} (l : list A) (k : list B) :
  (zip l k).*2 = take (length l) k.
Proof.
  revert k. induction l as [|x l IH]; intros [|y k]; simpl; try reflexivity.
  now rewrite IH.
Qed.

Lemma fst_zip_take {A B : Type} (l : list A) (k : list B) :
  (zip l k).*1 = take (length k) l.
Proof.
  revert k. induction l as [|x l IH]; intros [|y k]; simpl; try reflexivity.
  now rewrite IH.
Qed.

(** X4. When the selected assignment and the list of gene names differ in
    length, [zip] (line 355) stops at the shorter: only the first
    [min(len(gene_names), len(optimal_clusters))] genes are grouped, each
    under the label the assignment gives it, the member lists hold that many
    indices in all, and the rest of the longer list is dropped without an
    error. *)
Theorem grouping_stops_at_shorter (gene_names : list string) (optimal_clusters : list Z) :
  let n := Nat.min (length gene_names) (length optimal_clusters) in
  let labels := optimal_cluster_labels gene_names optimal_clusters in
  (forall c, labels !! c = held (positions_from 0 c (take n optimal_clusters))) /\
  total_members labels = n /\
  (forall c genes gene, labels !! c = Some genes -> gene ∈ genes ->
     (gene < n)%nat /\ optimal_clusters !! gene = Some c) /\
  (forall gene, (n <= gene)%nat -> forall c genes, labels !! c = Some genes -> gene ∉ genes) /\
  labels = optimal_cluster_labels (take n gene_names) (take n optimal_clusters).
Proof.
  intros n labels.
  assert (Hlook : forall c, labels !! c = held (positions_from 0 c (take n optimal_clusters))).
  { intros c. subst labels n. unfold optimal_cluster_labels, group_genes.
    rewrite group_labels_lookup, snd_zip_take. f_equal. f_equal.
    destruct (Nat.min_spec (length gene_names) (length optimal_clusters)) as [[_ ->]|[Hle ->]];
      [reflexivity|]. now rewrite !take_ge by lia. }
  assert (Hmem : forall c genes gene, labels !! c = Some genes -> gene ∈ genes ->
                 (gene < n)%nat /\ optimal_clusters !! gene = Some c).
  { intros c genes gene Hc Hin. rewrite Hlook in Hc. apply held_Some in Hc as [-> _].
    apply elem_of_positions_from in Hin as [_ Hin]. rewrite Nat.sub_0_r in Hin.
    apply lookup_take_Some in Hin as [Hin Hlt]. now split. }
  split; [exact Hlook|]. split; [|split; [exact Hmem|split]].
  - subst labels n. unfold optimal_cluster_labels, group_genes.
    rewrite group_labels_total. apply length_zip_with.
  - intros gene Hge c genes Hc Hin. destruct (Hmem c genes gene Hc Hin). lia.
  - apply map_eq. intros c. rewrite Hlook.
    rewrite optimal_cluster_labels_lookup; [reflexivity|].
    rewrite !length_take. subst n. lia.
Qed.

Lemma group_names_lookup (pairs : list (string * Z)) (c : Z) :
  (fold_left group_step (enumerate pairs) (∅, ∅)).2 !! c = held (names_labelled c pairs).
Proof.
  induction pairs as [|[name k] pairs IH] using rev_ind.
  - simpl. apply lookup_empty.
  - unfold enumerate in *. rewrite enumerate_from_snoc, fold_left_app.
    unfold names_labelled in *. rewrite filter_app, fmap_app. simpl.
    rewrite (dict_append_lookup _ k c name _ IH). f_equal. f_equal.
    rewrite filter_cons, filter_nil. simpl. now destruct (decide (k = c)).
Qed.

Lemma names_follow_positions (pairs : list (string * Z)) (c : Z) :
  Forall2 (fun gene name => pairs.*1 !! gene = Some name)
    (positions_from 0 c pairs.*2) (names_labelled c pairs).
Proof.
  induction pairs as [|[name k] pairs IH] using rev_ind; [constructor|].
  unfold names_labelled in *. rewrite !fmap_app, filter_app, fmap_app.
  change (snd <$> [(name, k)]) with [k]. rewrite positions_from_snoc, length_fmap.
  apply Forall2_app.
  - eapply Forall2_impl; [exact IH|]. simpl. intros gene name' Hg.
    now apply lookup_app_l_Some.
  - rewrite filter_cons, filter_nil. simpl. destruct (decide (k = c)); [|constructor].
    constructor; [|constructor].
    rewrite lookup_app_r by (rewrite length_fmap; lia).
    now rewrite length_fmap, Nat.sub_diag.
Qed.

(** X5. The dictionary of gene names written to the optimal-clustering file
    (line 357) mirrors the dictionary of gene indices (line 356): both hold
    the same cluster ids, and under each id the names are, entry by entry,
    the names of the genes in the index list. *)
Theorem names_mirror_indices (gene_names : list string) (optimal_clusters : list Z) (c : Z) :
  let labels := optimal_cluster_labels gene_names optimal_clusters in
  let names := optimal_cluster_labels_original_gene_names gene_names optimal_clusters in
  (labels !! c = None <-> names !! c = None) /\
  (forall genes, labels !! c = Some genes ->
     exists members, names !! c = Some members /\
       Forall2 (fun gene name => gene_names !! gene = Some name) genes members).
Proof.
  intros labels names.
  pose proof (names_follow_positions (zip gene_names optimal_clusters) c) as Hfol.
  assert (Hl : labels !! c = held (positions_from 0 c (zip gene_names optimal_clusters).*2))
    by apply group_labels_lookup.
  assert (Hn : names !! c = held (names_labelled c (zip gene_names optimal_clusters)))
    by apply group_names_lookup.
  rewrite Hl, Hn. split.
  - destruct Hfol; simpl; split; congruence.
  - intros genes Hg. apply held_Some in Hg as [-> Hne].
    exists (names_labelled c (zip gene_names optimal_clusters)). split.
    + destruct Hfol; [contradiction|reflexivity].
    + eapply Forall2_impl; [exact Hfol|]. simpl. intros gene name Hg.
      rewrite fst_zip_take in Hg. now apply lookup_take_Some in Hg as [Hg _].
Qed.

(** ** Further theorems: rescaling, continued *)


(** X7. On binary64, a time vector with a single time point has no
    consecutive differences: their mean is [0/0], and line 297 turns the
    time point into NaN, whatever it was; an empty vector stays empty.  No
    error is raised. *)
Theorem rescale_time_single_point (x : float) :
  rescale_time ([] : list float) = [] /\
  exists y, rescale_time [x] = [y] /\ Prim2SF y = S754_nan.
Proof.
  split; [reflexivity|]. eexists. split; [reflexivity|].
  change (np_mean (np_diff [x])) with (PrimFloat.div 0%float 0%float).
  cbv beta. change (@ndiv float Num_f64) with PrimFloat.div.
  rewrite FloatAxioms.div_spec.
  replace (Prim2SF (0 / 0)%float) with S754_nan by (vm_compute; reflexivity).
  unfold SF64div, SFdiv. now destruct (Prim2SF x).
Qed.

(** ** Further theorems: how a run ends *)

Section Endings.
Context {Σ : Foreign} (E : Env Σ).

Lemma phase_design_raises (a : args.namespace) (input : string) (r r' : rng Σ)
    (e : error (exn Σ)) (tr : list (event Σ)) :
  phase_design E a input r = (Raise e, r', tr) ->
  tr = [EvSeed 1234; EvRead (split_on comma input)].
Proof.
  rewrite phase_design_run.
  destruct (read_gene_expression_matrices E _ _ _ _ _ _) as [[x|d0] r1];
    now intros [= <- <- <-].
Qed.

(** A pass of the refit loop that raises does so while the arguments of
    line 361 are evaluated, in [dp_cluster], or in
    [update_cluster_attributes]. *)
Lemma refit_cluster_raises (a : args.namespace) (d : Design Σ) (smp : Samples Σ)
    (acc : gmap Z (gp Σ)) (item : Z * list nat) (r r' : rng Σ)
    (e : error (exn Σ)) (tr : list (event Σ)) :
  refit_cluster E a d smp acc item r = (Raise e, r', tr) ->
  tr = [] \/ tr = [EvBuild item.1 item.2] \/ tr = pass_events a item.
Proof.
  destruct item as [c genes]. intros H.
  apply refit_cluster_inv in H as [(e' & _ & Htr)|(fitted & [=] & _)]. exact Htr.
Qed.

Lemma refit_cluster_ok (a : args.namespace) (d : Design Σ) (smp : Samples Σ)
    (acc acc' : gmap Z (gp Σ)) (item : Z * list nat) (r r' : rng Σ) (tr : list (event Σ)) :
  refit_cluster E a d smp acc item r = (Ok acc', r', tr) -> tr = pass_events a item.
Proof.
  destruct item as [c genes]. intros H.
  now apply refit_cluster_inv in H as [(e & [=] & _)|(fitted & _ & _ & ->)].
Qed.

(** A loop that raises stops in the pass of one item: the items before it
    were refitted, the items after it were not touched. *)
Lemma refit_loop_raises (a : args.namespace) (d : Design Σ) (smp : Samples Σ)
    (items : list (Z * list nat)) :
  forall (acc : gmap Z (gp Σ)) (r r' : rng Σ) (e : error (exn Σ)) (tr : list (event Σ)),
  for_each (refit_cluster E a d smp) items acc r = (Raise e, r', tr) ->
  exists done item rest,
    items = done ++ item :: rest /\
    (tr = flat_map (@pass_events Σ a) done \/
     tr = flat_map (@pass_events Σ a) done ++ [EvBuild item.1 item.2] \/
     tr = flat_map (@pass_events Σ a) done ++ pass_events a item).
Proof.
  induction items as [|item0 items IH]; intros acc r r' e tr; simpl.
  - intros [=].
  - intros Hrun.
    apply bind_inv in Hrun as [(e' & H1 & [= <-])|(acc' & r1 & tr1 & tr2 & H1 & H2 & ->)].
    + apply refit_cluster_raises in H1.
      exists [], item0, items. split; [reflexivity|]. exact H1.
    + apply refit_cluster_ok in H1 as ->.
      destruct (IH _ _ _ _ _ H2) as (done & item & rest & -> & Htr).
      exists (item0 :: done), item, rest. split; [reflexivity|].
      change (flat_map (@pass_events Σ a) (item0 :: done))
        with (pass_events a item0 ++ flat_map (@pass_events Σ a) done).
      destruct Htr as [-> |[-> | ->]]; [left|right; left|right; right];
        now rewrite ?app_assoc.
Qed.

(** An ordering of the heatmap that holds an index out of range stops the
    plot phase at line 386, after the heatmap and before the key file. *)
Lemma phase_plot_bad_key (a : args.namespace) (d : Design Σ) (smp : Samples Σ)
    (gps : gmap Z (gp Σ)) (output_path_prefix : string) (r r1 : rng Σ) (key : list nat) :
  args.plot a = true ->
  plot_similarity_matrix E (sim_mat smp) output_path_prefix
    (split_on comma (args.plot_types a)) r = (inr key, r1) ->
  names_at (d_gene_names d) key = None ->
  phase_plot E a d smp gps output_path_prefix r
  = (Raise IndexError, r1, [EvPlot SimilarityMatrixPlot]).
Proof.
  intros Hplot Hkey Hnames. unfold phase_plot. rewrite Hplot.
  unfold bind, call. rewrite Hkey, Hnames. reflexivity.
Qed.

End Endings.

Section RunEndings.
Context {Σ : Foreign} (E : Env Σ) (a : args.namespace) (input output_path_prefix : string).

(** The trace of lines 284-388 in four parts: the events up to the
    selection, the refit loop, the result files, the figures. *)
Lemma main_trace_shape (r r' : rng Σ) (o : outcome Σ (Report Σ)) (tr : list (event Σ)) :
  main E a input output_path_prefix r = (o, r', tr) ->
  exists head loop files figures labels,
    tr = head ++ loop ++ files ++ figures /\
    within 1 5 head /\
    loop `prefix_of` refit_events E a labels /\
    files `prefix_of` report_events output_path_prefix /\
    figures `prefix_of` plot_events a output_path_prefix /\
    (figures <> [] -> files = report_events output_path_prefix).
Proof.
  intros H. apply main_inv in H
    as [(e & H & _)|[(d & r1 & tr1 & e & tr2 & T & H & -> & _)|
       [(d & smp & r2 & tr2 & e & tr3 & T & H & -> & _)|
       [(d & smp & opt & r3 & tr3 & e & tr4 & T & H & -> & _)|
       [(d & smp & opt & gps & r4 & tr4 & e & tr5 & T & H & -> & _)|
       [(d & smp & opt & gps & r5 & tr5 & e & tr6 & T & H & -> & _)|
        (d & smp & opt & gps & r5 & tr5 & tr6 & T & H & -> & _)]]]]]].
  - apply phase_design_raises in H as ->.
    exists [EvSeed 1234; EvRead (split_on comma input)], [], [], [], ∅.
    split; [reflexivity|]. split.
    { split; repeat constructor; simpl; unfold follows; simpl; lia. }
    repeat split; try apply prefix_nil. now intros [].
  - exists (tr1 ++ tr2), [], [], [], ∅. split; [now rewrite !app_nil_r|]. split.
    { eapply (within_app 1 2 3 5); [lia..| |].
      - eapply within_through_design, T.
      - eapply within_weaken; [| |eapply within_phase_sampling, H]; lia. }
    repeat split; try apply prefix_nil. now intros [].
  - exists (tr2 ++ tr3), [], [], [], ∅. split; [now rewrite !app_nil_r|]. split.
    { eapply (within_app 1 4 5 5); [lia..| |].
      - eapply within_through_sampling, T.
      - eapply within_phase_selection, H. }
    repeat split; try apply prefix_nil. now intros [].
  - exists tr3, tr4, [], [], (optimal_cluster_labels (d_gene_names d) opt).
    split; [now rewrite !app_nil_r|]. split; [eapply within_through_selection, T|].
    split.
    { apply refit_loop_raises in H as (done & item & rest & Hitems & Htr).
      unfold refit_events. rewrite Hitems, flat_map_app.
      change (flat_map (@pass_events Σ a) (item :: rest))
        with ([EvBuild item.1 item.2; EvOptimize item.1 (args.max_iters a) (args.optimizer a)]
              ++ flat_map (@pass_events Σ a) rest).
      destruct Htr as [-> |[-> | ->]].
      - now eexists.
      - apply prefix_app, prefix_cons, prefix_nil.
      - apply prefix_app. now eexists. }
    repeat split; try apply prefix_nil. now intros [].
  - destruct T as (r3 & tr3 & loop & T & Hloop & ->).
    exists tr3, loop, tr5, [], (optimal_cluster_labels (d_gene_names d) opt).
    split; [now rewrite !app_nil_r, app_assoc|]. split; [eapply within_through_selection, T|].
    split.
    { apply refit_loop_ok in Hloop as (-> & _); [reflexivity|]. apply iteritems_keys. }
    split; [now apply phase_report_inv in H|].
    split; [apply prefix_nil|now intros []].
  - destruct T as (r4 & tr4 & files & (r3 & tr3 & loop & T & Hloop & ->) & Hfiles & ->).
    exists tr3, loop, files, tr6, (optimal_cluster_labels (d_gene_names d) opt).
    split; [now rewrite <- !app_assoc|]. split; [eapply within_through_selection, T|].
    split.
    { apply refit_loop_ok in Hloop as (-> & _); [reflexivity|]. apply iteritems_keys. }
    apply phase_report_inv in Hfiles as [_ Hfiles]. rewrite (Hfiles tt eq_refl).
    split; [reflexivity|]. split; [now apply phase_plot_inv in H|]. reflexivity.
  - destruct T as (r4 & tr4 & files & (r3 & tr3 & loop & T & Hloop & ->) & Hfiles & ->).
    exists tr3, loop, files, tr6, (optimal_cluster_labels (d_gene_names d) opt).
    split; [now rewrite <- !app_assoc|]. split; [eapply within_through_selection, T|].
    split.
    { apply refit_loop_ok in Hloop as (-> & _); [reflexivity|]. apply iteritems_keys. }
    apply phase_report_inv in Hfiles as [_ Hfiles]. rewrite (Hfiles tt eq_refl).
    split; [reflexivity|]. split; [now apply phase_plot_inv in H|]. reflexivity.
Qed.

End RunEndings.

(** ** Further theorems: the whole run *)

Section RunVerdicts.
Context {Σ : Foreign} (E : Env Σ) (a : args.namespace).

(** The three ways lines 271-281 can go. *)
Lemma run_cases (r : rng Σ) :
  ((args.gene_expression_matrix a = None \/ args.output_path_prefix a = None) /\
   run E a r = (Raise SystemExit, r, [EvHelp])) \/
  (exists input output_path_prefix,
     args.gene_expression_matrix a = Some input /\
     args.output_path_prefix a = Some output_path_prefix /\
     (args.criterion a ∉ criteria) /\
     run E a r = (Raise (ValueError criterion_message), r, [])) \/
  (exists input output_path_prefix,
     args.gene_expression_matrix a = Some input /\
     args.output_path_prefix a = Some output_path_prefix /\
     args.criterion a ∈ criteria /\
     check_arguments a = Accepted input output_path_prefix /\
     run E a r = main E a input output_path_prefix r).
Proof.
  unfold run, check_arguments.
  destruct (args.gene_expression_matrix a) as [input|];
    [|left; split; [now left|reflexivity]].
  destruct (args.output_path_prefix a) as [output_path_prefix|];
    [|left; split; [now right|reflexivity]].
  right. destruct (bool_decide (args.criterion a ∈ criteria)) eqn:Hcrit.
  - right. apply bool_decide_eq_true in Hcrit. now exists input, output_path_prefix.
  - left. apply bool_decide_eq_false in Hcrit. now exists input, output_path_prefix.
Qed.


End RunVerdicts.


Section PlotKey.
Context {Σ : Foreign} (E : Env Σ) (a : args.namespace) (input output_path_prefix : string).

(** A run that got through the result files goes on with the plot phase. *)
Lemma main_after_report (r r5 : rng Σ) (d : Design Σ) (smp : Samples Σ) (opt : list Z)
    (gps : gmap Z (gp Σ)) (tr5 : list (event Σ)) (e : error (exn Σ)) (r6 : rng Σ)
    (tr6 : list (event Σ)) :
  through_report E a input r output_path_prefix d smp opt gps r5 tr5 ->
  phase_plot E a d smp gps output_path_prefix r5 = (Raise e, r6, tr6) ->
  main E a input output_path_prefix r = (Raise e, r6, tr5 ++ tr6).
Proof.
  intros (r4 & tr4 & tr5' & (r3 & tr3 & tr4' & (r2 & tr2 & tr3' & (r1 & tr1 & tr2' & H1 & H2 & ->)
            & H3 & ->) & H4 & ->) & H5 & ->) H6.
  unfold through_design in H1. unfold optimal_cluster_labels in H4.
  unfold optimal_cluster_labels_original_gene_names in H5.
  unfold main, bind. rewrite H1, H2, H3. cbv zeta. rewrite H4, H5, H6.
  now rewrite <- !app_assoc.
Qed.

End PlotKey.

(** X9. With [--plot], when the ordering that [plot_similarity_matrix]
    returns holds an index that is not below the number of genes, the run
    ends at line 386 with an [IndexError]: the four result files are
    written and the heatmap is drawn, but the key file is not written and
    the two other figures are not drawn. *)
Theorem plot_key_out_of_range {Σ : Foreign} (E : Env Σ) (a : args.namespace)
    (input output_path_prefix : string) (r r5 r6 : rng Σ) (d : Design Σ) (smp : Samples Σ)
    (opt : list Z) (gps : gmap Z (gp Σ)) (tr5 : list (event Σ)) (key : list nat) (idx : nat) :
  check_arguments a = Accepted input output_path_prefix ->
  args.plot a = true ->
  through_report E a input r output_path_prefix d smp opt gps r5 tr5 ->
  plot_similarity_matrix E (sim_mat smp) output_path_prefix
    (split_on comma (args.plot_types a)) r5 = (inr key, r6) ->
  idx ∈ key -> (length (d_gene_names d) <= idx)%nat ->
  run E a r = (Raise IndexError, r6, tr5 ++ [EvPlot SimilarityMatrixPlot]) /\
  Forall (fun ev => ev ∈ trace_of (run E a r)) (report_events output_path_prefix) /\
  Forall (fun ev => (stage ev <= 11)%nat) (trace_of (run E a r)).
Proof.
  intros Hacc Hplot T Hkey Hidx Hlen.
  assert (Hnames : names_at (d_gene_names d) key = None) by (apply names_at_None; eauto).
  assert (Hrun : run E a r = (Raise IndexError, r6, tr5 ++ [EvPlot SimilarityMatrixPlot])).
  { rewrite (run_accepted E a input output_path_prefix r Hacc).
    apply (main_after_report E a input output_path_prefix r r5 d smp opt gps tr5); [exact T|].
    exact (phase_plot_bad_key E a d smp gps output_path_prefix r5 r6 key Hplot Hkey Hnames). }
  split; [exact Hrun|]. rewrite Hrun. unfold trace_of. simpl. split.
  - destruct (through_report_inv E a input output_path_prefix _ _ _ _ _ _ _ T)
      as (call_made & _ & ->).
    apply Forall_forall. intros ev Hev. rewrite !elem_of_app. left. right. now right.
  - apply within_through_report in T as [_ Hb]. apply Forall_app. split.
    + eapply Forall_impl; [exact Hb|]. simpl. intros ev. lia.
    + repeat constructor.
Qed.

Lemma plot_key_out_of_range_witness :
  exists r6 tr5,
    run (Faulty.env [0; 3; 1]%nat true [0; 0; 1]) (with_plot Demo.command_line) 0%nat
    = (Raise IndexError, r6, tr5 ++ [EvPlot SimilarityMatrixPlot]).
Proof.
  assert (T : exists d smp opt gps r5 tr5,
             through_report (Faulty.env [0; 3; 1]%nat true [0; 0; 1]) (with_plot Demo.command_line)
               "expr.txt" 0%nat "out" d smp opt gps r5 tr5 /\
             d_gene_names d = ["g1"; "g2"; "g3"]).
  { unfold through_report, through_refit, through_selection, through_sampling, through_design.
    repeat (first [reflexivity | eexists | split]). }
  destruct T as (d & smp & opt & gps & r5 & tr5 & T & Hnames).
  exists (S r5), tr5.
  apply (plot_key_out_of_range (Faulty.env [0; 3; 1]%nat true [0; 0; 1])
           (with_plot Demo.command_line) "expr.txt" "out" 0%nat r5 (S r5) d smp opt gps tr5
           [0; 3; 1]%nat 3%nat).
  - reflexivity.
  - reflexivity.
  - exact T.
  - reflexivity.
  - apply list_elem_of_further, list_elem_of_here.
  - rewrite Hnames. simpl. lia.
Defined.

Section RunShape.
Context {Σ : Foreign} (E : Env Σ) (a : args.namespace).

(** The trace of any run in four parts. *)
Lemma run_trace_shape (r : rng Σ) :
  trace_of (run E a r) = [EvHelp] \/ trace_of (run E a r) = [] \/
  exists input output_path_prefix head loop files figures labels,
    check_arguments a = Accepted input output_path_prefix /\
    trace_of (run E a r) = head ++ loop ++ files ++ figures /\
    within 1 5 head /\
    loop `prefix_of` refit_events E a labels /\
    files `prefix_of` report_events output_path_prefix /\
    figures `prefix_of` plot_events a output_path_prefix /\
    (figures <> [] -> files = report_events output_path_prefix).
Proof.
  destruct (run_cases E a r)
    as [[_ ->]|[(input & out & _ & _ & _ & ->)|(input & out & _ & _ & _ & Hacc & ->)]];
    [now left|now right; left|].
  right. right.
  destruct (main E a input out r) as [[o r'] tr] eqn:Hmain.
  apply main_trace_shape in Hmain as (head & loop & files & figures & labels & H).
  now exists input, out, head, loop, files, figures, labels.
Qed.

End RunShape.

(** X10. A figure is drawn, or the key file written, only with [--plot]
    and only when all four result files of lines 370-373 have been
    written: the trace is then the events up to the refit loop, the four
    result files, and a non-empty start of the plot schedule in which the
    event lies. *)
Theorem figures_follow_result_files {Σ : Foreign} (E : Env Σ) (a : args.namespace)
    (r : rng Σ) (ev : event Σ) :
  ev ∈ trace_of (run E a r) -> (11 <= stage ev)%nat ->
  args.plot a = true /\
  exists input output_path_prefix before figures,
    check_arguments a = Accepted input output_path_prefix /\
    trace_of (run E a r) = before ++ report_events output_path_prefix ++ figures /\
    within 1 6 before /\
    figures `prefix_of` plot_events a output_path_prefix /\
    ev ∈ figures.
Proof.
  intros Hin Hstage.
  destruct (run_trace_shape E a r)
    as [Htr|[Htr|(input & out & head & loop & files & figures & labels
                  & Hacc & Htr & Hhead & Hloop & Hfiles & Hfigs & Hall)]].
  { rewrite Htr in Hin. apply list_elem_of_singleton in Hin. subst ev. simpl in Hstage. lia. }
  { rewrite Htr in Hin. inversion Hin. }
  assert (Hloop' : within 6 6 loop).
  { eapply within_prefix; [exact Hloop|]. apply within_refit_events. }
  assert (Hfiles' : within 7 10 files).
  { eapply within_prefix; [exact Hfiles|]. apply within_report. }
  assert (Hev : ev ∈ figures).
  { rewrite Htr in Hin. rewrite !elem_of_app in Hin. destruct Hin as [H|[H|[H|H]]].
    - apply (within_stage _ _ _ _ Hhead) in H. lia.
    - apply (within_stage _ _ _ _ Hloop') in H. lia.
    - apply (within_stage _ _ _ _ Hfiles') in H. lia.
    - exact H. }
  assert (Hne : figures <> []) by (intros ->; inversion Hev).
  split.
  { destruct (args.plot a) eqn:Hplot; [reflexivity|]. exfalso.
    unfold plot_events in Hfigs. rewrite Hplot in Hfigs.
    apply prefix_nil_inv in Hfigs. contradiction. }
  exists input, out, (head ++ loop), figures. rewrite <- (Hall Hne), <- app_assoc.
  split; [exact Hacc|]. split; [exact Htr|].
  split; [|split; assumption].
  apply (within_app 1 5 6 6); try lia; assumption.
Qed.

Lemma figures_follow_result_files_witness :
  exists before figures,
    trace_of (run Demo.env (with_plot Demo.command_line) 0%nat)
    = before ++ report_events "out" ++ figures /\
    EvPlot GeneExpressionPlot ∈ figures.
Proof.
  destruct (figures_follow_result_files Demo.env (with_plot Demo.command_line) 0%nat
              (EvPlot GeneExpressionPlot))
    as (_ & input & out & before & figures & Hacc & Htr & _ & _ & Hin).
  - vm_compute. repeat first [apply list_elem_of_here|apply list_elem_of_further].
  - simpl. lia.
  - injection Hacc as <- <-. now exists before, figures.
Defined.

(** ** Further theorems: counting the calls of the refit loop *)

Section Counting.
Context {Σ : Foreign}.

Lemma builds_of_app (c : Z) (tr1 tr2 : list (event Σ)) :
  builds_of c (tr1 ++ tr2) = (builds_of c tr1 + builds_of c tr2)%nat /\
  optimizations_of c (tr1 ++ tr2) = (optimizations_of c tr1 + optimizations_of c tr2)%nat.
Proof.
  unfold builds_of, optimizations_of. now rewrite !List.filter_app, !length_app.
Qed.

Lemma builds_of_other_stage (c : Z) (tr : list (event Σ)) :
  Forall (fun ev => stage ev <> 6%nat) tr ->
  builds_of c tr = 0%nat /\ optimizations_of c tr = 0%nat.
Proof.
  unfold builds_of, optimizations_of.
  induction 1 as [|ev tr Hev _ IH]; [now split|].
  destruct ev; simpl in *; try exact IH; contradiction.
Qed.

Lemma builds_of_outside (c : Z) (lo hi : nat) (tr : list (event Σ)) :
  (hi < 6 \/ 6 < lo)%nat -> within lo hi tr ->
  builds_of c tr = 0%nat /\ optimizations_of c tr = 0%nat.
Proof.
  intros Hk [_ Hb]. apply builds_of_other_stage.
  eapply Forall_impl; [exact Hb|]. simpl. intros ev. lia.
Qed.


(** In a started refit loop no cluster is optimized more often than it was
    built, nor built more often than it occurs among the items. *)
Lemma loop_prefix_counts (a : args.namespace) (c : Z) (items : list (Z * list nat)) :
  forall loop : list (event Σ),
  loop `prefix_of` flat_map (@pass_events Σ a) items ->
  (optimizations_of c loop <= builds_of c loop)%nat /\
  (builds_of c loop <= length (List.filter (fun item => Z.eqb item.1 c) items))%nat.
Proof.
  induction items as [|item items IH]; intros loop Hpre.
  - apply prefix_nil_inv in Hpre as ->. split; reflexivity.
  - change (flat_map (@pass_events Σ a) (item :: items))
      with (EvBuild item.1 item.2 :: EvOptimize item.1 (args.max_iters a) (args.optimizer a)
              :: flat_map (@pass_events Σ a) items) in Hpre.
    destruct loop as [|ev1 loop]; [split; apply Nat.le_0_l|].
    pose proof (prefix_cons_inv_1 _ _ _ _ Hpre) as ->.
    apply prefix_cons_inv_2 in Hpre.
    destruct loop as [|ev2 loop].
    { unfold optimizations_of, builds_of. simpl. destruct (Z.eqb item.1 c); simpl; lia. }
    pose proof (prefix_cons_inv_1 _ _ _ _ Hpre) as ->.
    apply prefix_cons_inv_2 in Hpre. destruct (IH loop Hpre) as [H1 H2].
    unfold optimizations_of, builds_of in *. simpl.
    destruct (Z.eqb item.1 c); simpl; lia.
Qed.

End Counting.

(** X12. In any run, completed or not, no call outside the refit loop is
    made twice (for every stage of the schedule but the loop the trace
    holds at most one event: one seed, one read, one sampler, one
    selection, each file and each figure once), and in the loop no cluster
    is built twice, and none is optimized that was not built before. *)
Theorem no_call_repeated {Σ : Foreign} (E : Env Σ) (a : args.namespace) (r : rng Σ) :
  (forall k, k <> 6%nat ->
     (length (List.filter (at_stage k) (trace_of (run E a r))) <= 1)%nat) /\
  (forall c,
     (optimizations_of c (trace_of (run E a r)) <= builds_of c (trace_of (run E a r)))%nat /\
     (builds_of c (trace_of (run E a r)) <= 1)%nat).
Proof.
  split.
  - intros k Hk. apply (in_order_at_most_once (at_stage k) k); [exact Hk| |].
    + intros ev Hev. now apply Nat.eqb_eq.
    + apply run_within.
  - intros c.
    destruct (run_trace_shape E a r)
      as [->|[->|(input & out & head & loop & files & figures & labels
                  & Hacc & -> & Hhead & Hloop & Hfiles & Hfigs & Hall)]];
      [split; unfold optimizations_of, builds_of; simpl; lia..|].
    assert (Hfiles' : within 7 10 files).
    { eapply within_prefix; [exact Hfiles|]. apply within_report. }
    assert (Hfigs' : within 11 14 figures).
    { eapply within_prefix; [exact Hfigs|]. apply within_plot. }
    destruct (builds_of_app c head (loop ++ files ++ figures)) as [-> ->].
    destruct (builds_of_app c loop (files ++ figures)) as [-> ->].
    destruct (builds_of_app c files figures) as [-> ->].
    destruct (builds_of_outside c 1 5 head) as [-> ->]; [lia|exact Hhead|].
    destruct (builds_of_outside c 7 10 files) as [-> ->]; [lia|exact Hfiles'|].
    destruct (builds_of_outside c 11 14 figures) as [-> ->]; [lia|exact Hfigs'|].
    destruct (loop_prefix_counts a c (iteritems E labels) loop Hloop) as [H1 H2].
    rewrite NoDup_keys_count in H2 by apply iteritems_keys.
    destruct (bool_decide _) in H2; lia.
Qed.



(** ** Further theorems: the defaults *)

(** X14. A command line that gives only [-i] and [-o] passes the checks
    of lines 271-281.  With the defaults of lines 136-257 the sampler is
    configured for 1000 iterations with burn-in phases ending at 240 and
    480 and the documented optimizer lbfgsb, the optimal clustering is
    selected by log-likelihood (MAP), and no figure is drawn and no key
    file written, in any environment. *)
Theorem default_run {Σ : Foreign} (E : Env Σ) (input output_path_prefix : string)
    (r : rng Σ) :
  check_arguments (args.defaults (Some input) (Some output_path_prefix))
    = Accepted input output_path_prefix /\
  (forall d : Design Σ,
     let cfg := sampler_config (args.defaults (Some input) (Some output_path_prefix)) d in
     gs_max_num_iterations cfg = 1000 /\ gs_burnIn_phaseI cfg = 240 /\
     gs_burnIn_phaseII cfg = 480 /\ gs_optimizer cfg ∈ documented_optimizers) /\
  (forall smp : Samples Σ,
     phase_selection E "MAP" smp
     = call (EvSelect (ByLogLikelihood (np_array E (sampled_clusterings smp))
                         (log_likelihoods smp)))
         (best_clustering_by_log_likelihood E (np_array E (sampled_clusterings smp))
            (log_likelihoods smp))) /\
  Forall (fun ev => (1 <= stage ev <= 10)%nat)
    (trace_of (run E (args.defaults (Some input) (Some output_path_prefix)) r)).
Proof.
  set (a := args.defaults (Some input) (Some output_path_prefix)).
  assert (Hacc : check_arguments a = Accepted input output_path_prefix) by reflexivity.
  split; [exact Hacc|]. split; [|split].
  - intros d. cbv zeta. split; [reflexivity|]. split; [now vm_compute|].
    split; [now vm_compute|]. apply list_elem_of_here.
  - intros smp. reflexivity.
  - destruct (run_trace_shape E a r)
      as [Htr|[Htr|(input' & out & head & loop & files & figures & labels
                    & Hacc' & -> & Hhead & Hloop & Hfiles & Hfigs & _)]].
    + exfalso. destruct (run_cases E a r)
        as [[[H|H] _]|[(i & o & _ & _ & Hc & _)|(i & o & _ & _ & _ & _ & Hmain)]];
        try discriminate H.
      * apply Hc. apply list_elem_of_here.
      * destruct (main_trace_starts E a i o r) as [rest Hrest].
        rewrite <- Hmain, Htr in Hrest. discriminate.
    + exfalso. destruct (run_cases E a r)
        as [[[H|H] _]|[(i & o & _ & _ & Hc & _)|(i & o & _ & _ & _ & _ & Hmain)]];
        try discriminate H.
      * apply Hc. apply list_elem_of_here.
      * destruct (main_trace_starts E a i o r) as [rest Hrest].
        rewrite <- Hmain, Htr in Hrest. discriminate.
    + unfold plot_events in Hfigs. change (args.plot a) with false in Hfigs.
      apply prefix_nil_inv in Hfigs as ->. rewrite app_nil_r.
      assert (Hloop' : within 6 6 loop).
      { eapply within_prefix; [exact Hloop|]. apply within_refit_events. }
      assert (Hfiles' : within 7 10 files).
      { eapply within_prefix; [exact Hfiles|]. apply within_report. }
      destruct Hhead as [_ H1], Hloop' as [_ H2], Hfiles' as [_ H3].
      rewrite !Forall_app. repeat split;
        (eapply Forall_impl; [eassumption|]); simpl; intros; lia.
Qed.
